(** * assistant_bot: address book, phone and birthday fields, upcoming birthdays

    A shallow embedding of [assistant_bot.py] and of the parts of the Python
    standard library it calls ([re], [datetime], [_strptime], [calendar]),
    followed by the properties of the address-book core.

    Python values are modelled as follows.
    - [str] is a sequence of Unicode code points: [pystr := list Z].
    - [int] is [Z]; [//] and [%] are [Z.div] and [Z.modulo] (floor division).
    - [datetime.date] is a record of year, month and day, as CPython stores it.
    - An exception is a value of [exn]; a call that can raise returns a
      [result].  A method that mutates [self] is a function from the state
      before the call to the outcome together with the state after it. *)

From Stdlib Require Import ZArith List Bool Lia Permutation Sorted.
From Stdlib Require String Ascii DecimalString.
Import ListNotations.
Import String.StringSyntax.
Local Open Scope Z_scope.

(* ================================================================== *)
(** ** Python strings *)

Definition pystr := list Z.

(** A literal of the source text. *)
Fixpoint lit (s : String.string) : pystr :=
  match s with
  | String.EmptyString => []
  | String.String c rest => Z.of_N (Ascii.N_of_ascii c) :: lit rest
  end.
Arguments lit s%_string_scope.

(** [a == b] on [str]. *)
Fixpoint str_eqb (a b : pystr) : bool :=
  match a, b with
  | [], [] => true
  | x :: a', y :: b' => (x =? y) && str_eqb a' b'
  | _, _ => false
  end.

(** [a <= b] on [str]: lexicographic on code points. *)
Fixpoint str_leb (a b : pystr) : bool :=
  match a, b with
  | [], _ => true
  | _ :: _, [] => false
  | x :: a', y :: b' => (x <? y) || ((x =? y) && str_leb a' b')
  end.

(** [sep.join(parts)]. *)
Fixpoint join (sep : pystr) (parts : list pystr) : pystr :=
  match parts with
  | [] => []
  | [p] => p
  | p :: rest => p ++ sep ++ join sep rest
  end.

(** [sorted(names)] for a list of [str].  The order on [str] is total, so
    the sorted list does not depend on the algorithm; insertion from the
    right keeps equal elements in their original order, as Python's stable
    sort does. *)
Fixpoint insert_sorted (x : pystr) (l : list pystr) : list pystr :=
  match l with
  | [] => [x]
  | y :: l' => if str_leb x y then x :: l else y :: insert_sorted x l'
  end.

Definition sorted (l : list pystr) : list pystr :=
  fold_right insert_sorted [] l.

(** [str(n)] for an [int]. *)
Definition str_of_int (n : Z) : pystr := lit (DecimalString.NilZero.string_of_int (Z.to_int n)).

(* ================================================================== *)
(** ** Unicode decimal digits

    [\d] in a [str] pattern and [int()] on a [str] both work on the
    characters of general category Nd.  Every block of Nd holds the digits
    zero to nine in order; the table lists the first code point of each
    block (Unicode 14.0, the database of CPython 3.11).  The mathematical
    digits U+1D7CE..U+1D7FF are five consecutive blocks. *)

Definition Nd_blocks : list Z :=
  [ 0x30; 0x660; 0x6F0; 0x7C0; 0x966; 0x9E6; 0xA66; 0xAE6; 0xB66; 0xBE6;
    0xC66; 0xCE6; 0xD66; 0xDE6; 0xE50; 0xED0; 0xF20; 0x1040; 0x1090;
    0x17E0; 0x1810; 0x1946; 0x19D0; 0x1A80; 0x1A90; 0x1B50; 0x1BB0;
    0x1C40; 0x1C50; 0xA620; 0xA8D0; 0xA900; 0xA9D0; 0xA9F0; 0xAA50;
    0xABF0; 0xFF10; 0x104A0; 0x10D30; 0x11066; 0x110F0; 0x11136; 0x111D0;
    0x112F0; 0x11450; 0x114D0; 0x11650; 0x116C0; 0x11730; 0x118E0;
    0x11950; 0x11C50; 0x11D50; 0x11DA0; 0x16A60; 0x16AC0; 0x16B50;
    0x1D7CE; 0x1D7D8; 0x1D7E2; 0x1D7EC; 0x1D7F6;
    0x1E140; 0x1E2F0; 0x1E950; 0x1FBF0 ].

Definition in_block (c start : Z) : bool := (start <=? c) && (c <=? start + 9).

(** The block a code point belongs to, if it is a decimal digit. *)
Definition Nd_block (c : Z) : option Z := find (in_block c) Nd_blocks.

Definition isdecimal (c : Z) : bool :=
  match Nd_block c with Some _ => true | None => false end.

Definition digit_value (c : Z) : Z :=
  match Nd_block c with Some start => c - start | None => 0 end.

(** [c] is one of the ASCII characters [0-9]. *)
Definition ascii_digit (c : Z) : bool := (48 <=? c) && (c <=? 57).

(* ================================================================== *)
(** ** Exceptions and results *)

Inductive exn : Type :=
| ValueError (msg : pystr)
| KeyError
| OverflowError (msg : pystr).

Inductive result (A : Type) : Type :=
| Ok (a : A)
| Raise (e : exn).
Arguments Ok {A} a.
Arguments Raise {A} e.

Definition bind {A B} (m : result A) (k : A -> result B) : result B :=
  match m with
  | Ok a => k a
  | Raise e => Raise e
  end.

Declare Scope py_scope.
Delimit Scope py_scope with py.
Notation "x <- m ;; k" := (bind m (fun x => k))
  (at level 61, m at next level, right associativity) : py_scope.
Notation "' pat <- m ;; k" := (bind m (fun x => match x with pat => k end))
  (at level 61, pat pattern, m at next level, right associativity) : py_scope.
Local Open Scope py_scope.

(** The error kinds of the specification, as the exceptions the code raises. *)
Definition InvalidPhoneFormat : exn :=
  ValueError (lit "Phone number must contain exactly 10 digits.").
Definition InvalidDateFormat : exn :=
  ValueError (lit "Invalid date format. Use DD.MM.YYYY.").
Definition DuplicatePhone (phone_number : pystr) : exn :=
  ValueError (lit "Phone " ++ phone_number ++ lit " already exists.").
Definition PhoneNotFound (phone_number : pystr) : exn :=
  ValueError (lit "Phone '" ++ phone_number ++ lit "' not found.").
Definition ContactNotFound : exn := KeyError.

(* ================================================================== *)
(** ** [datetime.date] *)

Module Datetime.

Record date : Type := mkdate { year : Z; month : Z; day : Z }.

Definition MINYEAR : Z := 1.
Definition MAXYEAR : Z := 9999.
Definition MAXORDINAL : Z := 3652059.

(** List indexing at an index the callers keep within the list. *)
Definition index (l : list Z) (i : Z) : Z := nth (Z.to_nat i) l (-1).

Definition DAYS_IN_MONTH : list Z :=
  [-1; 31; 28; 31; 30; 31; 30; 31; 31; 30; 31; 30; 31].

Definition DAYS_BEFORE_MONTH : list Z :=
  [-1; 0; 31; 59; 90; 120; 151; 181; 212; 243; 273; 304; 334].

Definition is_leap (y : Z) : bool :=
  (y mod 4 =? 0) && (negb (y mod 100 =? 0) || (y mod 400 =? 0)).

Definition days_before_year (year : Z) : Z :=
  let y := year - 1 in
  y * 365 + y / 4 - y / 100 + y / 400.

Definition days_in_month (year month : Z) : Z :=
  if (month =? 2) && is_leap year then 29 else index DAYS_IN_MONTH month.

Definition days_before_month (year month : Z) : Z :=
  index DAYS_BEFORE_MONTH month + Z.b2z ((month >? 2) && is_leap year).

Definition ymd2ord (year month day : Z) : Z :=
  days_before_year year + days_before_month year month + day.

Definition DI400Y : Z := Eval cbv in days_before_year 401.
Definition DI100Y : Z := Eval cbv in days_before_year 101.
Definition DI4Y : Z := Eval cbv in days_before_year 5.

Definition ord2ymd (n : Z) : Z * Z * Z :=
  let n := n - 1 in
  let n400 := n / DI400Y in
  let n := n mod DI400Y in
  let year := n400 * 400 + 1 in
  let n100 := n / DI100Y in
  let n := n mod DI100Y in
  let n4 := n / DI4Y in
  let n := n mod DI4Y in
  let n1 := n / 365 in
  let n := n mod 365 in
  let year := year + (n100 * 100 + n4 * 4 + n1) in
  if (n1 =? 4) || (n100 =? 4) then (year - 1, 12, 31)
  else
    let leapyear := (n1 =? 3) && (negb (n4 =? 24) || (n100 =? 3)) in
    let month := Z.shiftr (n + 50) 5 in
    let preceding :=
      index DAYS_BEFORE_MONTH month + Z.b2z ((month >? 2) && leapyear) in
    if preceding >? n then
      let month := month - 1 in
      let preceding :=
        preceding - (index DAYS_IN_MONTH month + Z.b2z ((month =? 2) && leapyear)) in
      (year, month, n - preceding + 1)
    else (year, month, n - preceding + 1).

(** [date(year, month, day)]: the constructor checks its fields. *)
Definition new (year month day : Z) : result date :=
  if negb ((MINYEAR <=? year) && (year <=? MAXYEAR)) then
    Raise (ValueError (lit "year " ++ str_of_int year ++ lit " is out of range"))
  else if negb ((1 <=? month) && (month <=? 12)) then
    Raise (ValueError (lit "month must be in 1..12"))
  else if negb ((1 <=? day) && (day <=? days_in_month year month)) then
    Raise (ValueError (lit "day is out of range for month"))
  else Ok (mkdate year month day).

Definition toordinal (d : date) : Z := ymd2ord (year d) (month d) (day d).

Definition fromordinal (n : Z) : result date :=
  let '(y, m, d) := ord2ymd n in new y m d.

(** [d.replace(year=y)]. *)
Definition replace_year (d : date) (y : Z) : result date :=
  new y (month d) (day d).

(** [d + timedelta(days=k)]. *)
Definition add_days (d : date) (k : Z) : result date :=
  let o := toordinal d + k in
  if (0 <? o) && (o <=? MAXORDINAL) then fromordinal o
  else Raise (OverflowError (lit "date value out of range")).

(** [(a - b).days]. *)
Definition sub_days (a b : date) : Z := toordinal a - toordinal b.

(** Monday is 0, Sunday is 6. *)
Definition weekday (d : date) : Z := (toordinal d + 6) mod 7.

(** The fields of a date object always pass the constructor's check. *)
Definition valid (d : date) : Prop :=
  MINYEAR <= year d <= MAXYEAR /\ 1 <= month d <= 12 /\
  1 <= day d <= days_in_month (year d) (month d).

End Datetime.

(* ================================================================== *)
(** ** [datetime.strptime(value, "%d.%m.%Y")] and [strftime("%d.%m.%Y")]

    [_strptime] turns the format into the regular expression
    [(?P<d>3[0-1]|[1-2]\d|0[1-9]|[1-9]| [1-9])\.(?P<m>1[0-2]|0[1-9]|[1-9])\.(?P<Y>\d\d\d\d)],
    matches it at the start of the input, rejects input that continues
    after the match, converts the three groups with [int] and builds the
    date.  The expression is compiled with IGNORECASE, which changes
    nothing for digits, the dot and the space. *)

Module Strptime.
Import Datetime.

Definition is_char (k c : Z) : bool := c =? k.
Definition in_range (lo hi c : Z) : bool := (lo <=? c) && (c <=? hi).

Definition DOT : Z := 46.
Definition SPACE : Z := 32.

(** The ways an alternative of one or of two character classes matches at
    the start of [s]: the matched text and what follows it. *)
Definition alt1 (p : Z -> bool) (s : pystr) : list (pystr * pystr) :=
  match s with
  | a :: rest => if p a then [([a], rest)] else []
  | _ => []
  end.

Definition alt2 (p q : Z -> bool) (s : pystr) : list (pystr * pystr) :=
  match s with
  | a :: b :: rest => if p a && q b then [([a; b], rest)] else []
  | _ => []
  end.

(** The group of [%d], alternatives in the order the matcher tries them. *)
Definition re_d (s : pystr) : list (pystr * pystr) :=
  alt2 (is_char 51) (in_range 48 49) s ++
  alt2 (in_range 49 50) isdecimal s ++
  alt2 (is_char 48) (in_range 49 57) s ++
  alt1 (in_range 49 57) s ++
  alt2 (is_char SPACE) (in_range 49 57) s.

(** The group of [%m]. *)
Definition re_m (s : pystr) : list (pystr * pystr) :=
  alt2 (is_char 49) (in_range 48 50) s ++
  alt2 (is_char 48) (in_range 49 57) s ++
  alt1 (in_range 49 57) s.

(** The group of [%Y]. *)
Definition re_Y (s : pystr) : option (pystr * pystr) :=
  match s with
  | a :: b :: c :: d :: rest =>
      if isdecimal a && isdecimal b && isdecimal c && isdecimal d
      then Some ([a; b; c; d], rest) else None
  | _ => None
  end.

(** Backtracking: the first candidate whose continuation matches. *)
Fixpoint first_match {A B} (cands : list A) (k : A -> option B) : option B :=
  match cands with
  | [] => None
  | c :: cands' =>
      match k c with
      | Some r => Some r
      | None => first_match cands' k
      end
  end.

Definition literal_dot {B} (s : pystr) (k : pystr -> option B) : option B :=
  match s with
  | c :: rest => if c =? DOT then k rest else None
  | [] => None
  end.

(** [format_regex.match(data_string)]: the groups d, m, Y and the text left
    after the match. *)
Definition re_match (s : pystr) : option (pystr * pystr * pystr * pystr) :=
  first_match (re_d s) (fun '(d, s1) =>
    literal_dot s1 (fun s2 =>
      first_match (re_m s2) (fun '(m, s3) =>
        literal_dot s3 (fun s4 =>
          match re_Y s4 with
          | Some (y, rest) => Some (d, m, y, rest)
          | None => None
          end)))).

(** [int(group)]: white space around the number is dropped and every
    decimal digit counts with its value.  A group holds digits, after one
    space at most. *)
Fixpoint lstrip (s : pystr) : pystr :=
  match s with
  | c :: rest => if c =? SPACE then lstrip rest else s
  | [] => []
  end.

Fixpoint digits_value (acc : Z) (s : pystr) : option Z :=
  match s with
  | [] => Some acc
  | c :: rest =>
      if isdecimal c then digits_value (10 * acc + digit_value c) rest else None
  end.

Definition int (s : pystr) : option Z :=
  match lstrip s with
  | [] => None
  | t => digits_value 0 t
  end.

(** [datetime.strptime(value, "%d.%m.%Y").date()]; [None] stands for the
    [ValueError] the call raises. *)
Definition strptime (value : pystr) : option date :=
  match re_match value with
  | Some (d, m, y, []) =>
      match int y, int m, int d with
      | Some year, Some month, Some day =>
          match new year month day with
          | Ok dt => Some dt
          | Raise _ => None
          end
      | _, _, _ => None
      end
  | _ => None
  end.

(** [%02d] and [%04d] of a number that fits the width. *)
Definition two_digits (n : Z) : pystr := [48 + n / 10; 48 + n mod 10].
Definition four_digits (n : Z) : pystr :=
  [48 + n / 1000; 48 + (n / 100) mod 10; 48 + (n / 10) mod 10; 48 + n mod 10].

(** [%Y] is written by the C library of the platform.  The library
    documents four digits (0001 ... 9999); glibc writes the plain number,
    which is what CPython 3.11 prints on Linux for the years below 1000. *)
Inductive libc : Type :=
| PadsYear
| PlainYear.

Fixpoint drop_zeros (s : pystr) : pystr :=
  match s with
  | c :: (_ :: _) as rest => if c =? 48 then drop_zeros rest else s
  | _ => s
  end.

Definition year_digits (platform : libc) (n : Z) : pystr :=
  match platform with
  | PadsYear => four_digits n
  | PlainYear => drop_zeros (four_digits n)
  end.

(** [d.strftime("%d.%m.%Y")]. *)
Definition strftime (platform : libc) (d : date) : pystr :=
  two_digits (day d) ++ [DOT] ++ two_digits (month d) ++ [DOT] ++
  year_digits platform (year d).

End Strptime.

(* ================================================================== *)
(** ** Fields *)

Module Name.
Record t : Type := init { value : pystr }.
End Name.

Module Phone.

Record t : Type := mk { value : pystr }.

(** [re.fullmatch(r"\d{10}", s)]: ten times [\d], then the end of [s]. *)
Fixpoint match_digits (k : nat) (s : pystr) : option pystr :=
  match k with
  | O => Some s
  | S k' =>
      match s with
      | c :: rest => if isdecimal c then match_digits k' rest else None
      | [] => None
      end
  end.

Definition fullmatch_d10 (s : pystr) : bool :=
  match match_digits 10 s with
  | Some [] => true
  | _ => false
  end.

Definition _validate (phone_number : pystr) : result pystr :=
  if negb (fullmatch_d10 phone_number) then Raise InvalidPhoneFormat
  else Ok phone_number.

Definition init (value : pystr) : result t :=
  validated <- _validate value ;;
  Ok (mk validated).

(** [self._value] is assigned only when the validation returns. *)
Definition set_phone (new_value : pystr) (self : t) : result unit * t :=
  match _validate new_value with
  | Ok validated => (Ok tt, mk validated)
  | Raise e => (Raise e, self)
  end.

End Phone.

Module Birthday.
Import Datetime.

Record t : Type := mk { value : date }.

Definition init (value : pystr) : result t :=
  match Strptime.strptime value with
  | Some d => Ok (mk d)
  | None => Raise InvalidDateFormat
  end.

(** [str(birthday)]. *)
Definition str (platform : Strptime.libc) (self : t) : pystr :=
  Strptime.strftime platform (value self).

End Birthday.

(* ================================================================== *)
(** ** Record: a contact with its phones and its birthday

    [phones] is a Python list of [Phone] objects.  Every object in it was
    created by one call of [add_phone] and appended once, so the objects
    of the list are pairwise distinct and an object is known by its
    position: [find_phone] returns the position of the object it finds,
    [edit_phone] writes through it, [remove_phone] deletes it. *)

Module ContactRecord.

Record t : Type := mk {
  name : Name.t;
  phones : list Phone.t;
  birthday : option Birthday.t
}.

(** A method: the state of [self] before, the outcome and the state after. *)
Definition method (A : Type) : Type := t -> result A * t.

Definition init (name : pystr) : t := mk (Name.init name) [] None.

Definition set_phones (self : t) (ps : list Phone.t) : t :=
  mk (name self) ps (birthday self).

Definition has_value (phone_number : pystr) (p : Phone.t) : bool :=
  str_eqb (Phone.value p) phone_number.

Definition add_phone (phone_number : pystr) : method unit := fun self =>
  if existsb (has_value phone_number) (phones self) then
    (Raise (DuplicatePhone phone_number), self)
  else
    match Phone.init phone_number with
    | Ok phone => (Ok tt, set_phones self (phones self ++ [phone]))
    | Raise e => (Raise e, self)
    end.

(** Position of the first phone whose value is [phone_number]. *)
Fixpoint first_index (phone_number : pystr) (ps : list Phone.t) : option nat :=
  match ps with
  | [] => None
  | p :: ps' =>
      if has_value phone_number p then Some O
      else option_map S (first_index phone_number ps')
  end.

Definition find_phone (phone_number : pystr) (self : t) : option nat :=
  first_index phone_number (phones self).

(** Run a method of the phone at position [i] and store its new state. *)
Fixpoint at_index {A} (i : nat) (m : Phone.t -> result A * Phone.t)
    (ps : list Phone.t) : option (result A * list Phone.t) :=
  match ps, i with
  | [], _ => None
  | p :: ps', O => let '(r, p') := m p in Some (r, p' :: ps')
  | p :: ps', S i' =>
      match at_index i' m ps' with
      | Some (r, ps'') => Some (r, p :: ps'')
      | None => None
      end
  end.

Fixpoint remove_at (i : nat) (ps : list Phone.t) : list Phone.t :=
  match ps, i with
  | [], _ => []
  | _ :: ps', O => ps'
  | p :: ps', S i' => p :: remove_at i' ps'
  end.

Definition edit_phone (old_phone new_phone : pystr) : method unit := fun self =>
  match find_phone old_phone self with
  | None => (Raise (PhoneNotFound old_phone), self)
  | Some i =>
      match at_index i (Phone.set_phone new_phone) (phones self) with
      | Some (r, ps) => (r, set_phones self ps)
      | None => (Raise (PhoneNotFound old_phone), self)  (* not taken: [i] is a position of the list *)
      end
  end.

Definition remove_phone (phone_number : pystr) : method unit := fun self =>
  match find_phone phone_number self with
  | None => (Raise (PhoneNotFound phone_number), self)
  | Some i => (Ok tt, set_phones self (remove_at i (phones self)))
  end.

Definition add_birthday (birthday : pystr) : method unit := fun self =>
  match Birthday.init birthday with
  | Ok b => (Ok tt, mk (name self) (phones self) (Some b))
  | Raise e => (Raise e, self)
  end.

(** The values of the phones, in list order. *)
Definition phone_values (self : t) : list pystr := map Phone.value (phones self).

End ContactRecord.

(* ================================================================== *)
(** ** AddressBook

    [data] is a [dict] from names to records; a [dict] keeps its keys in
    the order of their first insertion. *)

Module AddressBook.
Import Datetime.

Definition t : Type := list (pystr * ContactRecord.t).

Definition empty : t := [].

(** [d[key] = v]. *)
Fixpoint setitem {V} (key : pystr) (v : V) (d : list (pystr * V)) : list (pystr * V) :=
  match d with
  | [] => [(key, v)]
  | (k, w) :: d' =>
      if str_eqb k key then (k, v) :: d' else (k, w) :: setitem key v d'
  end.

(** [d.get(key)]. *)
Fixpoint get {V} (key : pystr) (d : list (pystr * V)) : option V :=
  match d with
  | [] => None
  | (k, w) :: d' => if str_eqb k key then Some w else get key d'
  end.

Fixpoint delitem {V} (key : pystr) (d : list (pystr * V)) : list (pystr * V) :=
  match d with
  | [] => []
  | (k, w) :: d' => if str_eqb k key then d' else (k, w) :: delitem key d'
  end.

Definition values {V} (d : list (pystr * V)) : list V := map snd d.

Definition add_record (record : ContactRecord.t) (self : t) : t :=
  setitem (Name.value (ContactRecord.name record)) record self.

Definition find (name : pystr) (self : t) : option ContactRecord.t :=
  get name self.

Definition delete (name : pystr) (self : t) : result unit * t :=
  match get name self with
  | None => (Raise KeyError, self)
  | Some _ => (Ok tt, delitem name self)
  end.

(** [calendar.day_name], in the default locale. *)
Definition day_name : list pystr :=
  [lit "Monday"; lit "Tuesday"; lit "Wednesday"; lit "Thursday";
   lit "Friday"; lit "Saturday"; lit "Sunday"].

Definition day_name_at (i : Z) : pystr := nth (Z.to_nat i) day_name [].

(** [d.setdefault(key, []).append(v)]. *)
Definition setdefault_append (key v : pystr) (d : list (pystr * list pystr))
    : list (pystr * list pystr) :=
  match get key d with
  | Some l => setitem key (l ++ [v]) d
  | None => setitem key [v] d
  end.

(** Lines 133-138: the occurrence of a birthday that is looked at, and
    its distance from [today] in days. *)
Definition next_occurrence (today : date) (bday : date) : result (date * Z) :=
  bday_this_year <- replace_year bday (year today) ;;
  let delta_days := sub_days bday_this_year today in
  if delta_days <? 0 then
    bday_this_year <- replace_year bday_this_year (year today + 1) ;;
    Ok (bday_this_year, sub_days bday_this_year today)
  else Ok (bday_this_year, delta_days).

(** Lines 141-143: an occurrence on Saturday or Sunday moves on. *)
Definition shift_weekend (bday_this_year : date) : result date :=
  let weekday := weekday bday_this_year in
  if weekday >=? 5 then add_days bday_this_year (7 - weekday)
  else Ok bday_this_year.

(** The body of the loop over the records (lines 132-146). *)
Definition visit (today : date) (record : ContactRecord.t)
    (upcoming_birthdays : list (pystr * list pystr))
    : result (list (pystr * list pystr)) :=
  match ContactRecord.birthday record with
  | None => Ok upcoming_birthdays
  | Some b =>
      '(bday_this_year, delta_days) <- next_occurrence today (Birthday.value b) ;;
      if (0 <=? delta_days) && (delta_days <=? 7) then
        bday_this_year <- shift_weekend bday_this_year ;;
        let day := day_name_at (weekday bday_this_year) in
        Ok (setdefault_append day (Name.value (ContactRecord.name record))
              upcoming_birthdays)
      else Ok upcoming_birthdays
  end.

(** The loop (lines 131-146). *)
Fixpoint collect (today : date) (records : list ContactRecord.t)
    (upcoming_birthdays : list (pystr * list pystr))
    : result (list (pystr * list pystr)) :=
  match records with
  | [] => Ok upcoming_birthdays
  | record :: rest =>
      upcoming_birthdays <- visit today record upcoming_birthdays ;;
      collect today rest upcoming_birthdays
  end.

(** The groups written out, before they are formatted (lines 152-154). *)
Definition groups (upcoming_birthdays : list (pystr * list pystr))
    : list (pystr * list pystr) :=
  flat_map (fun day =>
    match get day upcoming_birthdays with
    | Some names => [(day, sorted names)]
    | None => []
    end) day_name.

Definition format_group (g : pystr * list pystr) : pystr :=
  fst g ++ lit ": " ++ join (lit ", ") (snd g).

Definition NO_UPCOMING : pystr := lit "No upcoming birthdays next week.".

(** Lines 148-157. *)
Definition render (upcoming_birthdays : list (pystr * list pystr)) : pystr :=
  match upcoming_birthdays with
  | [] => NO_UPCOMING
  | _ => join [10] (map format_group (groups upcoming_birthdays))
  end.

(** [today] is what [date.today()] returns. *)
Definition get_upcoming_birthdays (today : date) (self : t) : result pystr :=
  upcoming_birthdays <- collect today (values self) [] ;;
  Ok (render upcoming_birthdays).

End AddressBook.


(* ================================================================== *)
(** ** [Record.__str__] *)

Definition record_str (platform : Strptime.libc) (self : ContactRecord.t) : pystr :=
  let phones :=
    match ContactRecord.phones self with
    | [] => lit "no phones"
    | ps => join (lit "; ") (map Phone.value ps)
    end in
  let birthday_str :=
    match ContactRecord.birthday self with
    | Some b => lit ", birthday: " ++ Birthday.str platform b
    | None => []
    end in
  lit "Contact name: " ++ Name.value (ContactRecord.name self)
  ++ lit ", phones: " ++ phones ++ birthday_str.

(* ================================================================== *)
(** ** The command handlers and their decorator

    A handler takes the arguments of a command and the book; it returns a
    text or raises, and what it did to the book before it raised stays
    done.  A record that [find] returns is the object stored in the
    book: a method called on it changes the value stored under its key. *)

Module Handlers.

(** What the body of a handler ends with.  [IndexError] is raised by the
    handlers only. *)
Inductive outcome : Type :=
| Returns (text : pystr)
| Raises (e : exn)
| RaisesIndexError.

Definition of_result (r : result unit) (text : pystr) : outcome :=
  match r with
  | Ok _ => Returns text
  | Raise e => Raises e
  end.

(** [s.startswith(p)]. *)
Fixpoint startswith (p s : pystr) : bool :=
  match p, s with
  | [], _ => true
  | _ :: _, [] => false
  | x :: p', y :: s' => (x =? y) && startswith p' s'
  end.

(** [needle in hay]. *)
Fixpoint contains (needle hay : pystr) : bool :=
  startswith needle hay ||
  match hay with
  | [] => false
  | _ :: rest => contains needle rest
  end.

Definition GIVE_ME : pystr := lit "Give me name and phone/birthday please.".
Definition CONTACT_NOT_FOUND : pystr := lit "Contact not found.".

(** The clauses of [wrapper], in their order. *)
Definition input_error (o : outcome) : pystr :=
  match o with
  | Returns text => text
  | Raises (ValueError msg) =>
      if contains (lit "Invalid date format") msg then
        lit "Invalid date format. Use DD.MM.YYYY."
      else if contains (lit "exactly 10 digits") msg then
        lit "Invalid phone format. Phone number must contain exactly 10 digits."
      else if contains (lit "Phone") msg && contains (lit "not found") msg then msg
      else if contains (lit "already exists") msg then msg
      else GIVE_ME
  | RaisesIndexError => GIVE_ME
  | Raises KeyError => CONTACT_NOT_FOUND
  | Raises (OverflowError msg) => lit "An unexpected error occurred: " ++ msg
  end.

Definition handler : Type :=
  list pystr -> AddressBook.t -> outcome * AddressBook.t.

(** [@input_error]. *)
Definition decorated (body : handler) (args : list pystr) (book : AddressBook.t)
    : pystr * AddressBook.t :=
  let '(o, book') := body args book in (input_error o, book').

(** The [ValueError] of [a, b, ... = args] when [args] has not [expected]
    elements. *)
Definition unpack_error (expected : nat) (args : list pystr) : exn :=
  if (length args <? expected)%nat then
    ValueError (lit "not enough values to unpack (expected "
                ++ str_of_int (Z.of_nat expected) ++ lit ", got "
                ++ str_of_int (Z.of_nat (length args)) ++ lit ")")
  else
    ValueError (lit "too many values to unpack (expected "
                ++ str_of_int (Z.of_nat expected) ++ lit ")").

(** Call a method of the record stored under [name]. *)
Definition on_record {A} (name : pystr) (record : ContactRecord.t)
    (m : ContactRecord.method A) (book : AddressBook.t)
    : result A * AddressBook.t :=
  let '(r, record') := m record in (r, AddressBook.setitem name record' book).

Definition add_contact_body : handler := fun args book =>
  match args with
  | name :: phone :: _ =>
      match AddressBook.find name book with
      | None =>
          let record := ContactRecord.init name in
          let book := AddressBook.add_record record book in
          let '(r, book) := on_record name record (ContactRecord.add_phone phone) book in
          (of_result r (lit "Contact added."), book)
      | Some record =>
          let '(r, book) := on_record name record (ContactRecord.add_phone phone) book in
          (of_result r (lit "Contact updated."), book)
      end
  | _ => (RaisesIndexError, book)
  end.

Definition add_contact := decorated add_contact_body.

Definition change_contact_body : handler := fun args book =>
  match args with
  | [name; old_phone; new_phone] =>
      match AddressBook.find name book with
      | None => (Raises KeyError, book)
      | Some record =>
          let '(r, book) :=
            on_record name record (ContactRecord.edit_phone old_phone new_phone) book in
          (of_result r (lit "Contact updated successfully."), book)
      end
  | _ => (Raises (unpack_error 3 args), book)
  end.

Definition change_contact := decorated change_contact_body.

Definition show_phone_body : handler := fun args book =>
  match args with
  | name :: _ =>
      match AddressBook.find name book with
      | None => (Raises KeyError, book)
      | Some record =>
          (Returns (Name.value (ContactRecord.name record) ++ lit "'s phones: "
                    ++ join (lit "; ") (ContactRecord.phone_values record)), book)
      end
  | [] => (RaisesIndexError, book)
  end.

Definition show_phone := decorated show_phone_body.

Definition show_all_body (platform : Strptime.libc) : handler := fun args book =>
  match book with
  | [] => (Returns (lit "The address book is empty."), book)
  | _ => (Returns (join [10] (map (record_str platform) (AddressBook.values book))), book)
  end.

Definition show_all (platform : Strptime.libc) := decorated (show_all_body platform).

Definition add_birthday_body : handler := fun args book =>
  match args with
  | [name; birthday] =>
      match AddressBook.find name book with
      | None => (Raises KeyError, book)
      | Some record =>
          let '(r, book) :=
            on_record name record (ContactRecord.add_birthday birthday) book in
          (of_result r (lit "Birthday " ++ birthday ++ lit " added for contact "
                        ++ name ++ lit "."), book)
      end
  | _ => (Raises (unpack_error 2 args), book)
  end.

Definition add_birthday := decorated add_birthday_body.

Definition show_birthday_body (platform : Strptime.libc) : handler := fun args book =>
  match args with
  | name :: _ =>
      match AddressBook.find name book with
      | None => (Raises KeyError, book)
      | Some record =>
          match ContactRecord.birthday record with
          | None =>
              (Returns (lit "Contact " ++ name ++ lit " has no birthday record."), book)
          | Some b =>
              (Returns (name ++ lit "'s birthday: " ++ Birthday.str platform b), book)
          end
      end
  | [] => (RaisesIndexError, book)
  end.

Definition show_birthday (platform : Strptime.libc) :=
  decorated (show_birthday_body platform).

(** [today] is what [date.today()] returns inside the book's method. *)
Definition show_upcoming_birthdays_body (today : Datetime.date) : handler :=
  fun args book =>
    match AddressBook.get_upcoming_birthdays today book with
    | Ok text => (Returns text, book)
    | Raise e => (Raises e, book)
    end.

Definition show_upcoming_birthdays (today : Datetime.date) :=
  decorated (show_upcoming_birthdays_body today).

End Handlers.
(* ================================================================== *)
(** * Notions the properties are stated with *)

Definition str_le (a b : pystr) : Prop := str_leb a b = true.

(** Exactly ten characters, each a decimal digit of some script. *)
Definition ten_decimal_digits (s : pystr) : bool :=
  (length s =? 10)%nat && forallb isdecimal s.

(** Exactly ten characters, each one of [0-9]. *)
Definition ten_ascii_digits (s : pystr) : bool :=
  (length s =? 10)%nat && forallb ascii_digit s.

(** Ten Arabic-Indic digits, U+0661 ... U+0669, U+0660. *)
Definition arabic_indic_phone : pystr :=
  [0x661; 0x662; 0x663; 0x664; 0x665; 0x666; 0x667; 0x668; 0x669; 0x660].

(** A record reached through the operations: two phones added to a new
    contact. *)
Definition two_phones : ContactRecord.t :=
  snd (ContactRecord.add_phone (lit "2222222222")
        (snd (ContactRecord.add_phone (lit "1111111111")
               (ContactRecord.init (lit "Bob"))))).

(** The last steps of [ord2ymd]: month and day of the [n]-th day (from 0)
    of a year, given whether the year is a leap year. *)
Definition month_day (leapyear : bool) (n : Z) : Z * Z :=
  let month := Z.shiftr (n + 50) 5 in
  let preceding :=
    Datetime.index Datetime.DAYS_BEFORE_MONTH month
    + Z.b2z ((month >? 2) && leapyear) in
  if preceding >? n then
    let month := month - 1 in
    let preceding :=
      preceding - (Datetime.index Datetime.DAYS_IN_MONTH month
                   + Z.b2z ((month =? 2) && leapyear)) in
    (month, n - preceding + 1)
  else (month, n - preceding + 1).

(** [month_day] is right on day [n] of a year of the given kind. *)
Definition month_day_ok (leapyear : bool) (n : Z) : bool :=
  let y := if leapyear then 4 else 1 in
  let '(m, d) := month_day leapyear n in
  (1 <=? m) && (m <=? 12) && (1 <=? d) && (d <=? Datetime.days_in_month y m)
  && (Datetime.days_before_month y m + d =? n + 1).

(** [f] holds on [z], [z + 1], ..., [k] numbers in all. *)
Fixpoint all_from (k : nat) (z : Z) (f : Z -> bool) : bool :=
  match k with
  | O => true
  | S k' => f z && all_from k' (z + 1) f
  end.

(** *** Upcoming birthdays, in the words of the specification *)

(** Steps 1 to 3 for one birthday: [occ] is the occurrence the
    specification looks at, and it lies in the window.  The occurrence is
    the birthday with its year replaced by the year of [today], or, when
    that day is already past, by the year after. *)
Definition upcoming (today bday occ : Datetime.date) : Prop :=
  exists this_year,
    Datetime.replace_year bday (Datetime.year today) = Ok this_year /\
    ((0 <= Datetime.sub_days this_year today /\ occ = this_year) \/
     (Datetime.sub_days this_year today < 0 /\
      Datetime.replace_year bday (Datetime.year today + 1) = Ok occ)) /\
    0 <= Datetime.sub_days occ today <= 7.

(** The week day under which the loop lists a record, if it lists it. *)
Definition listed_day (today : Datetime.date) (record : ContactRecord.t)
    : option pystr :=
  match ContactRecord.birthday record with
  | None => None
  | Some b =>
      match AddressBook.next_occurrence today (Birthday.value b) with
      | Ok (occ, delta_days) =>
          if (0 <=? delta_days) && (delta_days <=? 7) then
            match AddressBook.shift_weekend occ with
            | Ok shifted => Some (AddressBook.day_name_at (Datetime.weekday shifted))
            | Raise _ => None
            end
          else None
      | Raise _ => None
      end
  end.

Definition record_name (record : ContactRecord.t) : pystr :=
  Name.value (ContactRecord.name record).

(** The names listed under [day], in the order of the records. *)
Definition bucket (today : Datetime.date) (day : pystr)
    (records : list ContactRecord.t) : list pystr :=
  map record_name
    (filter (fun r => match listed_day today r with
                      | Some k => str_eqb k day
                      | None => false
                      end) records).

(** Steps 5 and 6: one group for each week day that has names, Monday
    first, the names of a group in sorted order. *)
Definition upcoming_spec (today : Datetime.date) (records : list ContactRecord.t)
    : list (pystr * list pystr) :=
  flat_map (fun day =>
    match bucket today day records with
    | [] => []
    | names => [(day, sorted names)]
    end) AddressBook.day_name.

(** [n] is a name of some group. *)
Definition listed (n : pystr) (gs : list (pystr * list pystr)) : Prop :=
  exists g, In g gs /\ In n (snd g).

(** *** Address books reached through the operations *)

Definition contact (name birthday : pystr) : ContactRecord.t :=
  snd (ContactRecord.add_birthday birthday (ContactRecord.init name)).

Definition book_of (name birthday : pystr) : AddressBook.t :=
  AddressBook.add_record (contact name birthday) AddressBook.empty.

Definition monday_2024_06_10 : Datetime.date := Datetime.mkdate 2024 6 10.
Definition saturday_2023_06_10 : Datetime.date := Datetime.mkdate 2023 6 10.

Definition is_nil {A} (l : list A) : bool :=
  match l with [] => true | _ => false end.

(** *** The date format, field by field *)

(** The texts the group of [%d] stands for: 01 to 09, 10 to 29, 30, 31,
    one digit 1 to 9, or one such digit after a space. *)
Definition day_field (g : pystr) : bool :=
  match g with
  | [a] => Strptime.in_range 49 57 a
  | [a; b] =>
      ((a =? 51) && Strptime.in_range 48 49 b)
      || (Strptime.in_range 49 50 a && isdecimal b)
      || ((a =? 48) && Strptime.in_range 49 57 b)
      || ((a =? 32) && Strptime.in_range 49 57 b)
  | _ => false
  end.

(** The texts the group of [%m] stands for: 10 to 12, 01 to 09, or one
    digit 1 to 9. *)
Definition month_field (g : pystr) : bool :=
  match g with
  | [a] => Strptime.in_range 49 57 a
  | [a; b] =>
      ((a =? 49) && Strptime.in_range 48 50 b)
      || ((a =? 48) && Strptime.in_range 49 57 b)
  | _ => false
  end.

(** The texts the group of [%Y] stands for: four decimal digits. *)
Definition year_field (g : pystr) : bool :=
  (length g =? 4)%nat && forallb isdecimal g.

(** The number a field denotes. *)
Definition field_value (g : pystr) : Z :=
  fold_left (fun acc c => if c =? 32 then acc else 10 * acc + digit_value c) g 0.

(** [s] is two digits, a dot, two digits, a dot and four digits, the
    digits being [0-9]. *)
Definition strict_form (s : pystr) : bool :=
  match s with
  | [d1; d2; p1; m1; m2; p2; y1; y2; y3; y4] =>
      forallb ascii_digit [d1; d2; m1; m2; y1; y2; y3; y4]
      && (p1 =? 46) && (p2 =? 46)
  | _ => false
  end.

(** *** The grouping, in the words of the specification *)

(** The week days in the order of the result. *)
Definition week : list pystr :=
  [lit "Monday"; lit "Tuesday"; lit "Wednesday"; lit "Thursday";
   lit "Friday"; lit "Saturday"; lit "Sunday"].

(** The name of a week day, Monday being 0 and Sunday 6. *)
Definition weekday_name (w : Z) : pystr :=
  match w with
  | 0 => lit "Monday"
  | 1 => lit "Tuesday"
  | 2 => lit "Wednesday"
  | 3 => lit "Thursday"
  | 4 => lit "Friday"
  | 5 => lit "Saturday"
  | 6 => lit "Sunday"
  | _ => []
  end.

(** Step 4: the day number an occurrence is filed under, which for a
    Saturday or a Sunday is [7 - weekday] days later. *)
Definition filed_ordinal (occ : Datetime.date) : Z :=
  if 5 <=? Datetime.weekday occ
  then Datetime.toordinal occ + (7 - Datetime.weekday occ)
  else Datetime.toordinal occ.

(** Steps 1 to 5 for one record: it has a birthday whose occurrence lies
    in the window, and the week day it is filed under is [day]. *)
Definition falls_on (today : Datetime.date) (day : pystr) (record : ContactRecord.t)
    : Prop :=
  exists b occ,
    ContactRecord.birthday record = Some b /\
    upcoming today (Birthday.value b) occ /\
    day = weekday_name ((filed_ordinal occ + 6) mod 7).

(** A book of four contacts: Cy born on 12 June, Al on 1 January, Zed on
    15 June and Bob on 16 June, added in this order. *)
Definition book_of_four : AddressBook.t :=
  AddressBook.add_record (contact (lit "Bob") (lit "16.06.1990"))
    (AddressBook.add_record (contact (lit "Zed") (lit "15.06.2000"))
       (AddressBook.add_record (contact (lit "Al") (lit "01.01.2000"))
          (AddressBook.add_record (contact (lit "Cy") (lit "12.06.2000"))
             AddressBook.empty))).

(** *** Sequences of operations *)

(** The three operations on the phones of a record. *)
Inductive phone_op : Type :=
| AddPhone (phone_number : pystr)
| EditPhone (old_phone new_phone : pystr)
| RemovePhone (phone_number : pystr).

(** The record after an operation, whether it returned or raised. *)
Definition apply_phone_op (self : ContactRecord.t) (op : phone_op) : ContactRecord.t :=
  match op with
  | AddPhone p => snd (ContactRecord.add_phone p self)
  | EditPhone old new => snd (ContactRecord.edit_phone old new self)
  | RemovePhone p => snd (ContactRecord.remove_phone p self)
  end.

Definition run_phone_ops (ops : list phone_op) (self : ContactRecord.t) : ContactRecord.t :=
  fold_left apply_phone_op ops self.

Definition is_edit (op : phone_op) : bool :=
  match op with EditPhone _ _ => true | _ => false end.

(** The names a book has entries for, in the order of the entries. *)
Definition keys (book : AddressBook.t) : list pystr := map fst book.

(** Every phone of the record is ten decimal digits. *)
Definition valid_phones (self : ContactRecord.t) : Prop :=
  Forall (fun v => ten_decimal_digits v = true) (ContactRecord.phone_values self).

(** The two operations that change which entries a book has. *)
Inductive book_op : Type :=
| AddRecord (record : ContactRecord.t)
| Delete (name : pystr).

Definition apply_book_op (book : AddressBook.t) (op : book_op) : AddressBook.t :=
  match op with
  | AddRecord record => AddressBook.add_record record book
  | Delete name => snd (AddressBook.delete name book)
  end.

Definition run_book_ops (ops : list book_op) (book : AddressBook.t) : AddressBook.t :=
  fold_left apply_book_op ops book.

(** No name has two entries, and every record is stored under its name. *)
Definition well_keyed (book : AddressBook.t) : Prop :=
  NoDup (keys book) /\ forall k r, In (k, r) book -> record_name r = k.

(** The week days from Monday to Friday. *)
Definition workdays : list pystr := firstn 5 AddressBook.day_name.

(** The loop lists the record. *)
Definition is_listed (today : Datetime.date) (record : ContactRecord.t) : bool :=
  match listed_day today record with Some _ => true | None => false end.

(** *** Texts and their words *)

(** The pieces of a text between its spaces; a text without space is
    its only piece. *)
Fixpoint words (s : pystr) : list pystr :=
  match s with
  | [] => [[]]
  | c :: rest =>
      if c =? 32 then [] :: words rest
      else match words rest with
           | w :: ws => (c :: w) :: ws
           | [] => [[c]]
           end
  end.

Definition endswith (p s : pystr) : bool := Handlers.startswith (rev p) (rev s).

(** Two neighbouring pieces, the first ending with [a] and the second
    starting with [c]. *)
Fixpoint pair_hits (a c : pystr) (ws : list pystr) : bool :=
  match ws with
  | u :: (v :: _) as rest =>
      (endswith a u && Handlers.startswith c v) || pair_hits a c rest
  | _ => false
  end.

Definition PHONE_FORMAT : pystr :=
  lit "Invalid phone format. Phone number must contain exactly 10 digits.".
Definition DATE_FORMAT : pystr := lit "Invalid date format. Use DD.MM.YYYY.".

(** *** Sequences of commands *)

Inductive command : Type :=
| CmdAdd (args : list pystr)
| CmdChange (args : list pystr)
| CmdPhone (args : list pystr)
| CmdAll (args : list pystr)
| CmdAddBirthday (args : list pystr)
| CmdShowBirthday (args : list pystr)
| CmdBirthdays (args : list pystr).

(** The handler of a command, on the platform and the day it runs. *)
Definition execute (platform : Strptime.libc) (today : Datetime.date)
    (c : command) (book : AddressBook.t) : pystr * AddressBook.t :=
  match c with
  | CmdAdd args => Handlers.add_contact args book
  | CmdChange args => Handlers.change_contact args book
  | CmdPhone args => Handlers.show_phone args book
  | CmdAll args => Handlers.show_all platform args book
  | CmdAddBirthday args => Handlers.add_birthday args book
  | CmdShowBirthday args => Handlers.show_birthday platform args book
  | CmdBirthdays args => Handlers.show_upcoming_birthdays today args book
  end.

Definition run_commands (platform : Strptime.libc) (today : Datetime.date)
    (cs : list command) (book : AddressBook.t) : AddressBook.t :=
  fold_left (fun book c => snd (execute platform today c book)) cs book.

(** Every contact is stored once and under its name, its phones are ten
    decimal digits each, and its birthday, if it has one, is a date of
    the calendar. *)
Definition sound_book (book : AddressBook.t) : Prop :=
  well_keyed book /\
  forall k r, In (k, r) book ->
    valid_phones r /\
    forall b, ContactRecord.birthday r = Some b -> Datetime.valid (Birthday.value b).

Definition DAY_OUT_OF_RANGE : exn := ValueError (lit "day is out of range for month").
Definition YEAR_10000 : exn := ValueError (lit "year 10000 is out of range").

(* ================================================================== *)
(** * Properties *)

(** ** Strings: equality, order and sorting *)

Lemma str_eqb_eq (a b : pystr) : str_eqb a b = true <-> a = b.
Proof.
  revert b; induction a as [|x a IH]; intros [|y b]; simpl; split;
    try congruence; try reflexivity.
  - rewrite andb_true_iff, Z.eqb_eq, IH. intros [-> ->]; reflexivity.
  - intros E; injection E as -> ->. rewrite Z.eqb_refl.
    apply IH; reflexivity.
Qed.

Lemma str_eqb_refl (a : pystr) : str_eqb a a = true.
Proof. apply str_eqb_eq; reflexivity. Qed.

Lemma str_eqb_sym (a b : pystr) : str_eqb a b = str_eqb b a.
Proof.
  destruct (str_eqb a b) eqn:E, (str_eqb b a) eqn:E'; try reflexivity.
  - apply str_eqb_eq in E. subst. rewrite str_eqb_refl in E'. discriminate.
  - apply str_eqb_eq in E'. subst. rewrite str_eqb_refl in E. discriminate.
Qed.

Lemma str_eqb_neq (a b : pystr) : str_eqb a b = false <-> a <> b.
Proof.
  rewrite <- str_eqb_eq. destruct (str_eqb a b); split; congruence.
Qed.

Lemma str_leb_total (a b : pystr) : str_leb a b = true \/ str_leb b a = true.
Proof.
  revert b; induction a as [|x a IH]; intros [|y b]; simpl; auto.
  destruct (Z.lt_trichotomy x y) as [H | [H | H]].
  - left. apply Z.ltb_lt in H. rewrite H; reflexivity.
  - subst y. rewrite Z.ltb_irrefl, Z.eqb_refl; simpl. apply IH.
  - right. apply Z.ltb_lt in H. rewrite H; reflexivity.
Qed.

Lemma str_leb_trans (a b c : pystr) :
  str_leb a b = true -> str_leb b c = true -> str_leb a c = true.
Proof.
  revert b c; induction a as [|x a IH]; intros [|y b] [|z c]; simpl;
    try congruence.
  rewrite !orb_true_iff, !andb_true_iff, !Z.ltb_lt, !Z.eqb_eq.
  intros [H1 | [H1 H1']] [H2 | [H2 H2']]; try (left; lia).
  right; split; [lia | eapply IH; eassumption].
Qed.

Lemma str_leb_antisym (a b : pystr) :
  str_leb a b = true -> str_leb b a = true -> a = b.
Proof.
  revert b; induction a as [|x a IH]; intros [|y b]; simpl;
    try congruence.
  rewrite !orb_true_iff, !andb_true_iff, !Z.ltb_lt, !Z.eqb_eq.
  intros [H1 | [H1 H1']] [H2 | [H2 H2']]; try lia.
  subst y. f_equal. apply IH; assumption.
Qed.

Lemma insert_sorted_perm (x : pystr) (l : list pystr) :
  Permutation (insert_sorted x l) (x :: l).
Proof.
  induction l as [|y l IH]; simpl.
  - reflexivity.
  - destruct (str_leb x y).
    + reflexivity.
    + rewrite IH. apply perm_swap.
Qed.

Lemma sorted_perm (l : list pystr) : Permutation (sorted l) l.
Proof.
  induction l as [|x l IH]; simpl.
  - reflexivity.
  - rewrite insert_sorted_perm. constructor. exact IH.
Qed.

Lemma insert_sorted_ordered (x : pystr) (l : list pystr) :
  StronglySorted str_le l -> StronglySorted str_le (insert_sorted x l).
Proof.
  induction l as [|y l IH]; simpl; intros Hs.
  - repeat constructor.
  - inversion Hs as [|? ? Hl Hy]; subst.
    destruct (str_leb x y) eqn:E.
    + constructor; [assumption|]. constructor; [exact E|].
      eapply Forall_impl; [|exact Hy].
      intros z Hz. eapply str_leb_trans; eassumption.
    + constructor; [apply IH; assumption|].
      assert (Hyx : str_le y x)
        by (destruct (str_leb_total x y) as [C | C]; [congruence | exact C]).
      eapply Permutation_Forall.
      * symmetry. apply insert_sorted_perm.
      * constructor; assumption.
Qed.

Lemma sorted_ordered (l : list pystr) : StronglySorted str_le (sorted l).
Proof.
  induction l as [|x l IH]; simpl.
  - constructor.
  - apply insert_sorted_ordered. exact IH.
Qed.

Lemma sorted_nil_iff (l : list pystr) : sorted l = [] <-> l = [].
Proof.
  split; intros H.
  - apply Permutation_nil. rewrite <- H. apply sorted_perm.
  - subst; reflexivity.
Qed.

(* ================================================================== *)
(** ** Phone *)

Lemma ascii_digit_isdecimal (c : Z) : ascii_digit c = true -> isdecimal c = true.
Proof.
  unfold ascii_digit, isdecimal, Nd_block. intros H.
  apply andb_true_iff in H as [H1 H2].
  simpl. unfold in_block at 1. replace (48 + 9) with 57 by reflexivity.
  rewrite H1, H2. reflexivity.
Qed.

Lemma ascii_digit_value (c : Z) : ascii_digit c = true -> digit_value c = c - 48.
Proof.
  unfold ascii_digit, digit_value, Nd_block. intros H.
  apply andb_true_iff in H as [H1 H2].
  simpl. unfold in_block at 1. replace (48 + 9) with 57 by reflexivity.
  rewrite H1, H2. reflexivity.
Qed.

Lemma match_digits_spec (k : nat) (s rest : pystr) :
  Phone.match_digits k s = Some rest <->
  exists ds, s = ds ++ rest /\ length ds = k /\ forallb isdecimal ds = true.
Proof.
  revert s; induction k as [|k IH]; intros s; simpl.
  - split.
    + intros E; injection E as ->. exists []; auto.
    + intros ([|d ds] & -> & Hl & _); [reflexivity | discriminate].
  - destruct s as [|c s].
    + split; [discriminate|].
      intros ([|d ds] & E & Hl & _); discriminate.
    + destruct (isdecimal c) eqn:Hc.
      * rewrite IH. split.
        -- intros (ds & -> & Hl & Hd). exists (c :: ds); simpl.
           rewrite Hc, Hl, Hd; auto.
        -- intros ([|d ds] & E & Hl & Hd); [discriminate|].
           simpl in *. injection E as -> ->. injection Hl as Hl.
           apply andb_true_iff in Hd as [_ Hd]. exists ds; auto.
      * split; [discriminate|].
        intros ([|d ds] & E & Hl & Hd); [discriminate|].
        simpl in *. injection E as -> ->. rewrite Hc in Hd; discriminate.
Qed.

Lemma fullmatch_d10_spec (s : pystr) :
  Phone.fullmatch_d10 s = ten_decimal_digits s.
Proof.
  unfold Phone.fullmatch_d10, ten_decimal_digits.
  destruct (Phone.match_digits 10 s) as [rest|] eqn:E.
  - apply match_digits_spec in E as (ds & -> & Hl & Hd).
    destruct rest as [|r rest].
    + rewrite app_nil_r, Hl, Hd. reflexivity.
    + rewrite length_app, Hl. simpl length.
      replace (10 + S (length rest) =? 10)%nat with false; [reflexivity|].
      symmetry. apply Nat.eqb_neq. lia.
  - destruct ((length s =? 10)%nat && forallb isdecimal s) eqn:E'; [|reflexivity].
    apply andb_true_iff in E' as [Hl Hd]. apply Nat.eqb_eq in Hl.
    assert (H : Phone.match_digits 10 s = Some []).
    { apply match_digits_spec. exists s. rewrite app_nil_r; auto. }
    congruence.
Qed.

Lemma Phone_init_eq (s : pystr) :
  Phone.init s =
  if ten_decimal_digits s then Ok (Phone.mk s) else Raise InvalidPhoneFormat.
Proof.
  unfold Phone.init, Phone._validate. rewrite fullmatch_d10_spec.
  destruct (ten_decimal_digits s); reflexivity.
Qed.

Lemma ten_ascii_is_decimal (s : pystr) :
  ten_ascii_digits s = true -> ten_decimal_digits s = true.
Proof.
  unfold ten_ascii_digits, ten_decimal_digits.
  rewrite !andb_true_iff, !forallb_forall. intros [Hl Hd]. split; [exact Hl|].
  intros c Hc. apply ascii_digit_isdecimal, Hd, Hc.
Qed.

(** C7, as the code has it: [Phone(s)] returns a phone holding exactly [s]
    when [s] is ten characters long and each is a decimal digit of some
    script (the characters [\d] matches in a [str] pattern), and raises
    InvalidPhoneFormat for every other string.  Ten digits [0-9] are the
    ASCII case of this, so such a string is always accepted, and a string
    of another length, or with a sign, separator or letter, is rejected. *)
Theorem Phone_init_ten_decimal_digits (s : pystr) :
  Phone.init s =
    (if ten_decimal_digits s then Ok (Phone.mk s) else Raise InvalidPhoneFormat)
  /\ (ten_ascii_digits s = true -> Phone.init s = Ok (Phone.mk s))
  /\ ((length s <> 10%nat \/ exists c, In c s /\ isdecimal c = false) ->
      Phone.init s = Raise InvalidPhoneFormat).
Proof.
  split; [apply Phone_init_eq|]. split.
  - intros H. rewrite Phone_init_eq, (ten_ascii_is_decimal s H). reflexivity.
  - intros H. rewrite Phone_init_eq.
    replace (ten_decimal_digits s) with false; [reflexivity|].
    symmetry. unfold ten_decimal_digits. apply andb_false_iff.
    destruct H as [H | (c & Hin & Hc)].
    + left. apply Nat.eqb_neq. exact H.
    + right. destruct (forallb isdecimal s) eqn:E; [|reflexivity].
      rewrite forallb_forall in E. rewrite (E c Hin) in Hc. discriminate.
Qed.

Lemma Phone_init_ten_decimal_digits_witness :
  Phone.init (lit "0501234567") = Ok (Phone.mk (lit "0501234567")) /\
  Phone.init (lit "+380501234") = Raise InvalidPhoneFormat.
Proof.
  split.
  - apply (proj1 (proj2 (Phone_init_ten_decimal_digits (lit "0501234567")))).
    vm_compute; reflexivity.
  - apply (proj2 (proj2 (Phone_init_ten_decimal_digits (lit "+380501234")))).
    right. exists 43. split; [left; reflexivity | vm_compute; reflexivity].
Defined.

(** C7, as stated, fails: ten Arabic-Indic digits are not digits [0-9],
    and [Phone] accepts them. *)
Lemma Phone_init_accepts_arabic_indic :
  Phone.init arabic_indic_phone = Ok (Phone.mk arabic_indic_phone) /\
  ten_ascii_digits arabic_indic_phone = false.
Proof. split; reflexivity. Qed.

(* ================================================================== *)
(** ** Record: phones *)

Import ContactRecord.

Lemma existsb_has_value (phone_number : pystr) (ps : list Phone.t) :
  existsb (has_value phone_number) ps = true <->
  In phone_number (map Phone.value ps).
Proof.
  rewrite existsb_exists, in_map_iff. unfold has_value.
  split; intros (p & H1 & H2).
  - apply str_eqb_eq in H2. eauto.
  - exists p. split; [assumption|]. apply str_eqb_eq. assumption.
Qed.

Lemma phone_values_snoc (self : t) (p : Phone.t) :
  phone_values (set_phones self (phones self ++ [p])) =
  phone_values self ++ [Phone.value p].
Proof. unfold phone_values; simpl. apply map_app. Qed.

(** C5: [add_phone] with a value the record already holds raises
    DuplicatePhone and leaves the record, hence its phone list and count,
    as it was; with a value not yet held it validates as [Phone] does and,
    if valid, appends the new phone after all the others, leaving them
    and their order untouched. *)
Theorem add_phone_duplicate_or_append (phone_number : pystr) (self : t) :
  (In phone_number (phone_values self) ->
     add_phone phone_number self = (Raise (DuplicatePhone phone_number), self)) /\
  (~ In phone_number (phone_values self) ->
     match Phone.init phone_number with
     | Ok phone =>
         exists self',
           add_phone phone_number self = (Ok tt, self') /\
           phone_values self' = phone_values self ++ [phone_number] /\
           name self' = name self /\ birthday self' = birthday self
     | Raise e => add_phone phone_number self = (Raise e, self)
     end).
Proof.
  unfold add_phone. split; intros H.
  - apply existsb_has_value in H. rewrite H. reflexivity.
  - destruct (existsb (has_value phone_number) (phones self)) eqn:E.
    + apply existsb_has_value in E. contradiction.
    + pose proof (Phone_init_eq phone_number) as Hi.
      destruct (Phone.init phone_number) as [phone|e]; [|reflexivity].
      eexists; split; [reflexivity|].
      rewrite phone_values_snoc.
      destruct (ten_decimal_digits phone_number); [|discriminate].
      injection Hi as ->. auto.
Qed.

Lemma add_phone_duplicate_or_append_witness :
  add_phone (lit "1111111111") two_phones
  = (Raise (DuplicatePhone (lit "1111111111")), two_phones).
Proof.
  apply (proj1 (add_phone_duplicate_or_append (lit "1111111111") two_phones)).
  left. vm_compute; reflexivity.
Defined.

Lemma first_index_none (v : pystr) (ps : list Phone.t) :
  ~ In v (map Phone.value ps) -> first_index v ps = None.
Proof.
  induction ps as [|p ps IH]; simpl; intros H; [reflexivity|].
  unfold has_value at 1. destruct (str_eqb (Phone.value p) v) eqn:E.
  - apply str_eqb_eq in E. tauto.
  - rewrite IH by tauto. reflexivity.
Qed.

Lemma first_index_app (v : pystr) (A B : list Phone.t) (p : Phone.t) :
  ~ In v (map Phone.value A) -> Phone.value p = v ->
  first_index v (A ++ p :: B) = Some (length A).
Proof.
  induction A as [|a A IH]; simpl; intros H Hp.
  - unfold has_value. rewrite Hp, str_eqb_refl. reflexivity.
  - unfold has_value at 1. destruct (str_eqb (Phone.value a) v) eqn:E.
    + apply str_eqb_eq in E. tauto.
    + rewrite IH by tauto. reflexivity.
Qed.

Lemma at_index_app {R} (m : Phone.t -> result R * Phone.t)
    (A B : list Phone.t) (p : Phone.t) :
  at_index (length A) m (A ++ p :: B) =
  Some (fst (m p), A ++ snd (m p) :: B).
Proof.
  induction A as [|a A IH]; simpl.
  - destruct (m p); reflexivity.
  - rewrite IH. reflexivity.
Qed.

(** The position [find_phone] returns is a position of the list. *)
Lemma at_index_found {R} (m : Phone.t -> result R * Phone.t)
    (v : pystr) (ps : list Phone.t) (i : nat) :
  first_index v ps = Some i -> at_index i m ps <> None.
Proof.
  revert i; induction ps as [|p ps IH]; simpl; intros i H; [discriminate|].
  destruct (has_value v p).
  - injection H as <-. simpl. destruct (m p); discriminate.
  - destruct (first_index v ps) as [j|]; [|discriminate].
    injection H as <-. specialize (IH j eq_refl). simpl.
    destruct (at_index j m ps) as [[r ps']|]; [discriminate | congruence].
Qed.

Lemma phone_values_split (self : t) (before after : list pystr) (v : pystr) :
  phone_values self = before ++ v :: after ->
  exists A p B, phones self = A ++ p :: B /\
    map Phone.value A = before /\ Phone.value p = v /\ map Phone.value B = after.
Proof.
  unfold phone_values. intros H.
  apply map_eq_app in H as (A & B' & HA & Hb & H).
  apply map_eq_cons in H as (p & B & HB & Hp & Ha).
  subst B'. exists A, p, B. auto.
Qed.

(** C6: [edit_phone old new] on a record that does not hold [old] raises
    PhoneNotFound and leaves the record as it was.  On a record that
    holds [old], with [before] the phones ahead of its first occurrence
    and [after] those behind it, a valid [new] takes the place of that
    occurrence and every other phone keeps its value and position; an
    invalid [new] raises InvalidPhoneFormat and changes nothing. *)
Theorem edit_phone_in_place (old_phone new_phone : pystr) (self : t) :
  (~ In old_phone (phone_values self) ->
     edit_phone old_phone new_phone self = (Raise (PhoneNotFound old_phone), self)) /\
  (forall before after,
     phone_values self = before ++ old_phone :: after ->
     ~ In old_phone before ->
     match Phone.init new_phone with
     | Ok _ =>
         exists self',
           edit_phone old_phone new_phone self = (Ok tt, self') /\
           phone_values self' = before ++ new_phone :: after /\
           name self' = name self /\ birthday self' = birthday self
     | Raise e => edit_phone old_phone new_phone self = (Raise e, self)
     end).
Proof.
  unfold edit_phone, find_phone. split.
  - intros H. rewrite first_index_none by exact H. reflexivity.
  - intros before after Hs Hb.
    destruct (phone_values_split self before after old_phone Hs)
      as (A & p & B & HP & HA & Hp & HB).
    rewrite HP, first_index_app, at_index_app by (rewrite ?HA; assumption).
    unfold Phone.set_phone, Phone.init.
    pose proof (Phone_init_eq new_phone) as Hi. unfold Phone.init in Hi.
    destruct (Phone._validate new_phone) as [validated|e]; simpl in *.
    + destruct (ten_decimal_digits new_phone); [|discriminate].
      injection Hi as ->. eexists; split; [reflexivity|].
      unfold phone_values; simpl. rewrite map_app; simpl.
      rewrite HA, HB. auto.
    + rewrite <- HP. destruct self; reflexivity.
Qed.

Lemma edit_phone_in_place_witness :
  exists self',
    edit_phone (lit "2222222222") (lit "3333333333") two_phones = (Ok tt, self') /\
    phone_values self' = [lit "1111111111"] ++ lit "3333333333" :: [] /\
    name self' = name two_phones /\ birthday self' = birthday two_phones.
Proof.
  apply (proj2 (edit_phone_in_place (lit "2222222222") (lit "3333333333") two_phones)
           [lit "1111111111"] []).
  - vm_compute; reflexivity.
  - intros [E | []]. vm_compute in E. discriminate.
Defined.

Lemma add_phone_keeps_NoDup (phone_number : pystr) (self : t) :
  NoDup (phone_values self) ->
  NoDup (phone_values (snd (add_phone phone_number self))).
Proof.
  intros H. unfold add_phone.
  destruct (existsb (has_value phone_number) (phones self)) eqn:E; [exact H|].
  pose proof (Phone_init_eq phone_number) as Hi.
  destruct (Phone.init phone_number) as [phone|e]; [|exact H].
  simpl. rewrite phone_values_snoc.
  destruct (ten_decimal_digits phone_number); [|discriminate].
  injection Hi as ->. simpl.
  apply NoDup_app; [exact H | repeat constructor; simpl; tauto |].
  intros x Hx [<- | []].
  apply existsb_has_value in Hx. unfold phone_values in *. congruence.
Qed.

Lemma remove_at_values (i : nat) (ps : list Phone.t) :
  incl (map Phone.value (remove_at i ps)) (map Phone.value ps) /\
  (NoDup (map Phone.value ps) -> NoDup (map Phone.value (remove_at i ps))).
Proof.
  revert i; induction ps as [|p ps IH]; intros [|i]; simpl.
  - split; [apply incl_refl | auto].
  - split; [apply incl_refl | auto].
  - split; [apply incl_tl, incl_refl|]. intros H; inversion H; assumption.
  - destruct (IH i) as [Hi Hn]. split.
    + intros x [<- | Hx]; [left; reflexivity | right; apply Hi, Hx].
    + intros H; inversion H as [|? ? Hnot Hnd]; subst.
      constructor; [|apply Hn, Hnd]. intros Hx. apply Hnot, Hi, Hx.
Qed.

Lemma remove_phone_keeps_NoDup (phone_number : pystr) (self : t) :
  NoDup (phone_values self) ->
  NoDup (phone_values (snd (remove_phone phone_number self))).
Proof.
  intros H. unfold remove_phone.
  destruct (find_phone phone_number self) as [i|]; [|exact H].
  simpl. unfold phone_values; simpl. apply remove_at_values. exact H.
Qed.

(** C4 does not hold of the code: [add_phone] refuses a value the record
    holds and [edit_phone] does not look.  On the record with the phones
    1111111111 and 2222222222, both added through [add_phone],
    [edit_phone("1111111111", "2222222222")] returns normally and leaves
    the record with 2222222222 twice. *)
Theorem edit_phone_duplicates :
  NoDup (phone_values two_phones) /\
  exists self',
    edit_phone (lit "1111111111") (lit "2222222222") two_phones = (Ok tt, self') /\
    phone_values self' = [lit "2222222222"; lit "2222222222"] /\
    ~ NoDup (phone_values self').
Proof.
  split.
  - unfold two_phones. apply add_phone_keeps_NoDup, add_phone_keeps_NoDup.
    constructor.
  - eexists. split; [reflexivity|]. split; [reflexivity|].
    intros H. inversion H as [|? ? Hnot _]. apply Hnot. left. reflexivity.
Qed.

(* ================================================================== *)
(** ** Dates: ordinals and week days *)

Import Datetime.

Lemma is_leap_iff (y : Z) :
  is_leap y = true <-> y mod 4 = 0 /\ (y mod 100 <> 0 \/ y mod 400 = 0).
Proof.
  unfold is_leap.
  rewrite andb_true_iff, orb_true_iff, negb_true_iff, !Z.eqb_eq, Z.eqb_neq.
  reflexivity.
Qed.

Lemma is_leap_false_iff (y : Z) :
  is_leap y = false <-> ~ (y mod 4 = 0 /\ (y mod 100 <> 0 \/ y mod 400 = 0)).
Proof.
  rewrite <- is_leap_iff. destruct (is_leap y); split; congruence.
Qed.

Lemma month_cases (m : Z) :
  1 <= m <= 12 ->
  m = 1 \/ m = 2 \/ m = 3 \/ m = 4 \/ m = 5 \/ m = 6 \/
  m = 7 \/ m = 8 \/ m = 9 \/ m = 10 \/ m = 11 \/ m = 12.
Proof. lia. Qed.

Ltac each_month H :=
  apply month_cases in H;
  repeat (destruct H as [H | H]); subst.

(** Evaluate the table lookups and the tests on the months the goal
    mentions, and nothing else. *)
Ltac calc_bool t :=
  let v := eval vm_compute in t in
  match v with
  | true => change t with true
  | false => change t with false
  end.

Ltac calc_index :=
  repeat match goal with
  | |- context [index ?l ?k] =>
      let v := eval vm_compute in (index l k) in change (index l k) with v
  | |- context [?a =? ?b] => calc_bool (a =? b)
  | |- context [?a >? ?b] => calc_bool (a >? b)
  end;
  cbn [andb orb negb Z.b2z].

Lemma days_in_month_leap (y y' m : Z) :
  is_leap y = is_leap y' -> days_in_month y m = days_in_month y' m.
Proof. unfold days_in_month. intros ->. reflexivity. Qed.

Lemma days_before_month_leap (y y' m : Z) :
  is_leap y = is_leap y' -> days_before_month y m = days_before_month y' m.
Proof. unfold days_before_month. intros ->. reflexivity. Qed.

Lemma day_of_year_bounds (y m d : Z) :
  1 <= m <= 12 -> 1 <= d <= days_in_month y m ->
  1 <= days_before_month y m + d <= 365 + Z.b2z (is_leap y).
Proof.
  intros Hm. unfold days_in_month, days_before_month.
  each_month Hm; destruct (is_leap y); calc_index; lia.
Qed.

Lemma days_before_year_mono (y y' : Z) :
  y <= y' -> days_before_year y <= days_before_year y'.
Proof.
  intros H. destruct (Z.eq_dec y y') as [-> | Hne]; [lia|].
  unfold days_before_year; cbv zeta.
  assert (H4 : (y - 1) / 4 <= (y' - 1) / 4) by (apply Z.div_le_mono; lia).
  assert (H400 : (y - 1) / 400 <= (y' - 1) / 400) by (apply Z.div_le_mono; lia).
  assert (H100 : (y' - 1) / 100 - (y - 1) / 100 <= (y' - y) / 100 + 1).
  { Z.to_euclidean_division_equations. lia. }
  assert (H0 : (y' - y) / 100 <= y' - y).
  { Z.to_euclidean_division_equations. lia. }
  lia.
Qed.

Lemma toordinal_bounds (d : date) : valid d -> 1 <= toordinal d <= MAXORDINAL.
Proof.
  intros (Hy & Hm & Hd). unfold toordinal, ymd2ord.
  pose proof (day_of_year_bounds _ _ _ Hm Hd) as Hb.
  unfold MINYEAR, MAXYEAR, MAXORDINAL in *.
  pose proof (days_before_year_mono 1 (year d) ltac:(lia)) as H1.
  change (days_before_year 1) with 0 in H1.
  destruct (Z.eq_dec (year d) 9999) as [E | E].
  - rewrite E in *. change (is_leap 9999) with false in Hb.
    change (days_before_year 9999) with 3651694. simpl in Hb. lia.
  - pose proof (days_before_year_mono (year d) 9998 ltac:(lia)) as H2.
    change (days_before_year 9998) with 3651329 in H2.
    destruct (is_leap (year d)); simpl in Hb; lia.
Qed.

Lemma all_from_spec (k : nat) (z : Z) (f : Z -> bool) :
  all_from k z f = true -> forall i, z <= i < z + Z.of_nat k -> f i = true.
Proof.
  revert z; induction k as [|k IH]; intros z H i Hi; [lia|].
  simpl in H. apply andb_true_iff in H as [H0 H].
  destruct (Z.eq_dec i z) as [-> | Hne]; [exact H0|].
  apply (IH (z + 1) H). lia.
Qed.

Lemma month_day_correct (leapyear : bool) (n : Z) :
  0 <= n < 365 -> month_day_ok leapyear n = true.
Proof.
  intros H.
  assert (A : forall l, all_from 365 0 (month_day_ok l) = true)
    by (intros [|]; vm_compute; reflexivity).
  apply (all_from_spec 365 0 _ (A leapyear)). lia.
Qed.

(** The years and the day of the year [ord2ymd] works with. *)
Lemma ord2ymd_unfold (o : Z) :
  let n := o - 1 in
  let n400 := n / 146097 in
  let n100 := (n mod 146097) / 36524 in
  let n4 := ((n mod 146097) mod 36524) / 1461 in
  let n1 := (((n mod 146097) mod 36524) mod 1461) / 365 in
  let r := (((n mod 146097) mod 36524) mod 1461) mod 365 in
  let y := n400 * 400 + 1 + (n100 * 100 + n4 * 4 + n1) in
  ord2ymd o =
    if (n1 =? 4) || (n100 =? 4) then (y - 1, 12, 31)
    else
      let leapyear := (n1 =? 3) && (negb (n4 =? 24) || (n100 =? 3)) in
      (y, fst (month_day leapyear r), snd (month_day leapyear r)).
Proof.
  cbv zeta. unfold ord2ymd, month_day, DI400Y, DI100Y, DI4Y. cbv zeta.
  destruct (_ || _); [reflexivity|].
  destruct (_ >? _); reflexivity.
Qed.

Lemma ord2ymd_correct (o : Z) :
  1 <= o ->
  let '(y, m, d) := ord2ymd o in
  1 <= m <= 12 /\ 1 <= d <= days_in_month y m /\ ymd2ord y m d = o.
Proof.
  intros Ho. rewrite (ord2ymd_unfold o). cbv zeta.
  remember (o - 1) as n eqn:En.
  pose proof (Z.div_mod n 146097 ltac:(lia)) as E400.
  pose proof (Z.mod_pos_bound n 146097 ltac:(lia)) as B400.
  remember (n / 146097) as a eqn:Ea. remember (n mod 146097) as ra eqn:Era.
  pose proof (Z.div_mod ra 36524 ltac:(lia)) as E100.
  pose proof (Z.mod_pos_bound ra 36524 ltac:(lia)) as B100.
  remember (ra / 36524) as b eqn:Eb. remember (ra mod 36524) as rb eqn:Erb.
  pose proof (Z.div_mod rb 1461 ltac:(lia)) as E4.
  pose proof (Z.mod_pos_bound rb 1461 ltac:(lia)) as B4.
  remember (rb / 1461) as c eqn:Ec. remember (rb mod 1461) as rc eqn:Erc.
  pose proof (Z.div_mod rc 365 ltac:(lia)) as E1.
  pose proof (Z.mod_pos_bound rc 365 ltac:(lia)) as B1.
  remember (rc / 365) as e eqn:Ee. remember (rc mod 365) as r eqn:Er.
  clear Ea Era Eb Erb Ec Erc Ee Er.
  assert (Ha : 0 <= a) by lia.
  assert (Hb : 0 <= b <= 4) by lia.
  assert (Hc : 0 <= c <= 24) by lia.
  assert (He : 0 <= e <= 4) by lia.
  destruct ((e =? 4) || (b =? 4)) eqn:Last.
  - (* the last day of a leap year *)
    assert (Hleap : is_leap (a * 400 + 1 + (b * 100 + c * 4 + e) - 1) = true).
    { apply is_leap_iff. apply orb_true_iff in Last.
      rewrite !Z.eqb_eq in Last.
      Z.to_euclidean_division_equations. lia. }
    unfold ymd2ord, days_in_month, days_before_month. rewrite Hleap.
    calc_index. split; [lia|]. split; [lia|].
    apply orb_true_iff in Last. rewrite !Z.eqb_eq in Last.
    unfold days_before_year; cbv zeta.
    Z.to_euclidean_division_equations. lia.
  - apply orb_false_iff in Last. rewrite !Z.eqb_neq in Last.
    set (y := a * 400 + 1 + (b * 100 + c * 4 + e)).
    set (leapyear := (e =? 3) && (negb (c =? 24) || (b =? 3))).
    assert (Hleap : is_leap y = leapyear).
    { unfold leapyear, y. destruct (is_leap _) eqn:L.
      - apply is_leap_iff in L. symmetry.
        rewrite andb_true_iff, orb_true_iff, negb_true_iff, !Z.eqb_eq, Z.eqb_neq.
        Z.to_euclidean_division_equations. lia.
      - apply is_leap_false_iff in L. symmetry.
        rewrite andb_false_iff, orb_false_iff, negb_false_iff, !Z.eqb_eq, !Z.eqb_neq.
        destruct (Z.eq_dec e 3) as [E3 | E3]; [right | left; exact E3].
        Z.to_euclidean_division_equations. lia. }
    pose proof (month_day_correct leapyear r ltac:(lia)) as Hmd.
    unfold month_day_ok in Hmd.
    destruct (month_day leapyear r) as [m d]. cbn [fst snd].
    rewrite !andb_true_iff, !Z.leb_le, Z.eqb_eq in Hmd.
    destruct Hmd as ((((Hm1 & Hm2) & Hd1) & Hd2) & Hsum).
    assert (L0 : is_leap y = is_leap (if leapyear then 4 else 1))
      by (rewrite Hleap; destruct leapyear; reflexivity).
    rewrite <- (days_in_month_leap y _ m L0) in Hd2.
    rewrite <- (days_before_month_leap y _ m L0) in Hsum.
    split; [lia|]. split; [lia|].
    unfold ymd2ord.
    assert (Hy : days_before_year y = n - r).
    { unfold days_before_year, y; cbv zeta.
      Z.to_euclidean_division_equations. lia. }
    lia.
Qed.

Lemma new_Ok (y m d : Z) (dt : date) :
  new y m d = Ok dt <-> dt = mkdate y m d /\ valid (mkdate y m d).
Proof.
  unfold new, valid; simpl.
  destruct ((MINYEAR <=? y) && (y <=? MAXYEAR)) eqn:Ey; simpl.
  2:{ split; [discriminate|]. intros (_ & Hy & _).
      apply andb_false_iff in Ey. rewrite !Z.leb_nle in Ey. lia. }
  destruct ((1 <=? m) && (m <=? 12)) eqn:Em; simpl.
  2:{ split; [discriminate|]. intros (_ & _ & Hm & _).
      apply andb_false_iff in Em. rewrite !Z.leb_nle in Em. lia. }
  destruct ((1 <=? d) && (d <=? days_in_month y m)) eqn:Ed; simpl.
  2:{ split; [discriminate|]. intros (_ & _ & _ & Hd).
      apply andb_false_iff in Ed. rewrite !Z.leb_nle in Ed. lia. }
  apply andb_true_iff in Ey, Em, Ed. rewrite !Z.leb_le in Ey, Em, Ed.
  split.
  - intros E; injection E as <-. auto.
  - intros [-> _]. reflexivity.
Qed.

Lemma replace_year_Ok (d : date) (y : Z) (dt : date) :
  replace_year d y = Ok dt ->
  dt = mkdate y (month d) (day d) /\ valid dt.
Proof.
  unfold replace_year. intros H. apply new_Ok in H as [-> H]. auto.
Qed.

(** Every ordinal of the supported range is the ordinal of the date
    [fromordinal] returns for it. *)
Lemma fromordinal_toordinal (o : Z) :
  1 <= o <= MAXORDINAL ->
  exists d, fromordinal o = Ok d /\ toordinal d = o /\ valid d.
Proof.
  intros Ho. unfold fromordinal.
  pose proof (ord2ymd_correct o ltac:(lia)) as H.
  destruct (ord2ymd o) as [[y m] d]. destruct H as (Hm & Hd & Hord).
  pose proof (day_of_year_bounds y m d Hm Hd) as Hb.
  assert (Hy : 1 <= y <= 9999).
  { unfold ymd2ord, MAXORDINAL in *.
    assert (Hz : Z.b2z (is_leap y) <= 1) by (destruct (is_leap y); simpl; lia).
    split.
    - destruct (Z_lt_le_dec y 1) as [Hlt|]; [exfalso | assumption].
      pose proof (days_before_year_mono y 0 ltac:(lia)) as H0.
      change (days_before_year 0) with (-366) in H0. lia.
    - destruct (Z_lt_le_dec 9999 y) as [Hlt|]; [exfalso | assumption].
      pose proof (days_before_year_mono 10000 y ltac:(lia)) as H0.
      change (days_before_year 10000) with 3652059 in H0. lia. }
  assert (V : valid (mkdate y m d)) by (unfold valid, MINYEAR, MAXYEAR; simpl; auto).
  exists (mkdate y m d). split; [|split; [exact Hord | exact V]].
  apply new_Ok. auto.
Qed.

Lemma weekday_range (d : date) : 0 <= weekday d < 7.
Proof. unfold weekday. apply Z.mod_pos_bound. lia. Qed.

(** An occurrence on Saturday or Sunday has a following Monday within
    the range of dates, and [7 - weekday] days lead to it. *)
Lemma shift_weekend_weekend (d : date) :
  valid d -> 5 <= weekday d ->
  exists d', AddressBook.shift_weekend d = Ok d' /\ valid d' /\
    sub_days d' d = 7 - weekday d /\ weekday d' = 0.
Proof.
  intros V W. unfold AddressBook.shift_weekend, add_days.
  pose proof (weekday_range d) as R.
  pose proof (toordinal_bounds d V) as B. unfold MAXORDINAL in *.
  replace (weekday d >=? 5) with true by (symmetry; apply Z.geb_le; lia).
  assert (Hs : 1 <= toordinal d + (7 - weekday d) <= 3652059).
  { unfold weekday in *. Z.to_euclidean_division_equations. lia. }
  replace ((0 <? toordinal d + (7 - weekday d)) &&
           (toordinal d + (7 - weekday d) <=? 3652059)) with true
    by (symmetry; apply andb_true_iff; rewrite Z.ltb_lt, Z.leb_le; lia).
  destruct (fromordinal_toordinal _ Hs) as (d' & E & O & V').
  exists d'. split; [exact E|]. split; [exact V'|].
  unfold sub_days. split; [lia|].
  unfold weekday in *. rewrite O.
  Z.to_euclidean_division_equations. lia.
Qed.

Lemma shift_weekend_weekday (d : date) :
  weekday d < 5 -> AddressBook.shift_weekend d = Ok d.
Proof.
  intros W. unfold AddressBook.shift_weekend.
  replace (weekday d >=? 5) with false; [reflexivity|].
  symmetry. rewrite Z.geb_leb. apply Z.leb_nle. lia.
Qed.

Lemma shift_weekend_total (d : date) :
  valid d -> exists d', AddressBook.shift_weekend d = Ok d'.
Proof.
  intros V. destruct (Z_lt_le_dec (weekday d) 5) as [H | H].
  - exists d. apply shift_weekend_weekday, H.
  - destruct (shift_weekend_weekend d V H) as (d' & E & _). eauto.
Qed.

(* ================================================================== *)
(** ** AddressBook: the dictionary of groups *)

Import AddressBook.

Lemma get_setitem {V} (key key' : pystr) (v : V) (d : list (pystr * V)) :
  get key' (setitem key v d) = if str_eqb key key' then Some v else get key' d.
Proof.
  induction d as [|[k w] d IH]; simpl.
  - reflexivity.
  - destruct (str_eqb k key) eqn:E; simpl.
    + apply str_eqb_eq in E; subst k.
      destruct (str_eqb key key'); reflexivity.
    + rewrite IH. destruct (str_eqb k key') eqn:E'; [|reflexivity].
      apply str_eqb_eq in E'; subst key'.
      rewrite (str_eqb_sym key k), E. reflexivity.
Qed.

Lemma get_setdefault_append (key v day : pystr) (d : list (pystr * list pystr)) :
  get day (setdefault_append key v d) =
  if str_eqb key day
  then Some (match get key d with Some l => l ++ [v] | None => [v] end)
  else get day d.
Proof.
  unfold setdefault_append.
  destruct (get key d); rewrite get_setitem; reflexivity.
Qed.

Lemma day_name_at_In (i : Z) : 0 <= i < 7 -> In (day_name_at i) day_name.
Proof.
  intros H. unfold day_name_at. apply nth_In.
  change (length day_name) with 7%nat. lia.
Qed.

Lemma listed_day_In (today : date) (r : ContactRecord.t) (day : pystr) :
  listed_day today r = Some day -> In day day_name.
Proof.
  unfold listed_day.
  destruct (ContactRecord.birthday r) as [b|]; [|discriminate].
  destruct (next_occurrence today (Birthday.value b)) as [[occ delta]|];
    [|discriminate].
  destruct ((0 <=? delta) && (delta <=? 7)); [|discriminate].
  destruct (shift_weekend occ) as [shifted|]; [|discriminate].
  intros E; injection E as <-. apply day_name_at_In, weekday_range.
Qed.

(** One turn of the loop, when it does not raise. *)
Lemma visit_listed_day (today : date) (r : ContactRecord.t)
    (d d' : list (pystr * list pystr)) :
  visit today r d = Ok d' ->
  d' = match listed_day today r with
       | Some day => setdefault_append day (record_name r) d
       | None => d
       end.
Proof.
  unfold visit, listed_day, record_name.
  destruct (ContactRecord.birthday r) as [b|]; [|congruence].
  destruct (next_occurrence today (Birthday.value b)) as [[occ delta]|];
    simpl; [|discriminate].
  destruct ((0 <=? delta) && (delta <=? 7)); [|congruence].
  destruct (shift_weekend occ) as [shifted|]; simpl; congruence.
Qed.

Lemma bucket_cons (today : date) (day : pystr) (r : ContactRecord.t)
    (rs : list ContactRecord.t) :
  bucket today day (r :: rs) =
  match listed_day today r with
  | Some k => if str_eqb k day then record_name r :: bucket today day rs
              else bucket today day rs
  | None => bucket today day rs
  end.
Proof.
  unfold bucket; simpl.
  destruct (listed_day today r) as [k|]; [|reflexivity].
  destruct (str_eqb k day); reflexivity.
Qed.

(** What the loop leaves under each key. *)
Lemma collect_get (today : date) (rs : list ContactRecord.t) :
  forall d d', collect today rs d = Ok d' ->
  forall day,
    get day d' =
    match get day d, bucket today day rs with
    | None, [] => None
    | None, names => Some names
    | Some l, names => Some (l ++ names)
    end.
Proof.
  induction rs as [|r rs IH]; intros d d' H day.
  - simpl in H. injection H as <-.
    change (bucket today day []) with (@nil pystr).
    destruct (get day d); [rewrite app_nil_r|]; reflexivity.
  - simpl in H. destruct (visit today r d) as [d1|] eqn:V; [|discriminate].
    simpl in H. rewrite (IH _ _ H day), bucket_cons.
    apply visit_listed_day in V. subst d1.
    destruct (listed_day today r) as [k|]; [|reflexivity].
    rewrite get_setdefault_append.
    destruct (str_eqb k day) eqn:E; [|reflexivity].
    apply str_eqb_eq in E; subst k.
    destruct (get day d) as [l|].
    + rewrite <- app_assoc. reflexivity.
    + reflexivity.
Qed.

Lemma collect_groups (today : date) (rs : list ContactRecord.t)
    (d : list (pystr * list pystr)) :
  collect today rs [] = Ok d -> groups d = upcoming_spec today rs.
Proof.
  intros H. unfold groups, upcoming_spec.
  apply flat_map_ext. intros day.
  rewrite (collect_get today rs _ _ H day). simpl.
  destruct (bucket today day rs); reflexivity.
Qed.

Lemma upcoming_spec_nil (today : date) (rs : list ContactRecord.t) :
  upcoming_spec today rs = [] <->
  forall r, In r rs -> listed_day today r = None.
Proof.
  unfold upcoming_spec. split.
  - intros H r Hr. destruct (listed_day today r) as [k|] eqn:E; [|reflexivity].
    exfalso. pose proof (listed_day_In _ _ _ E) as Hk.
    assert (Hb : In (record_name r) (bucket today k rs)).
    { unfold bucket. apply in_map, filter_In. split; [exact Hr|].
      rewrite E. apply str_eqb_refl. }
    assert (Hg : In (k, sorted (bucket today k rs))
                   (flat_map (fun day =>
                      match bucket today day rs with
                      | [] => []
                      | names => [(day, sorted names)]
                      end) day_name)).
    { apply in_flat_map. exists k. split; [exact Hk|].
      destruct (bucket today k rs); [destruct Hb | left; reflexivity]. }
    rewrite H in Hg. destruct Hg.
  - intros H.
    destruct (flat_map _ day_name) as [|g gs] eqn:E; [reflexivity|].
    exfalso.
    assert (Hg : In g (g :: gs)) by (left; reflexivity).
    rewrite <- E in Hg. apply in_flat_map in Hg as (day & _ & Hg).
    destruct (bucket today day rs) as [|n ns] eqn:B; [destruct Hg|].
    assert (Hn : In n (bucket today day rs)) by (rewrite B; left; reflexivity).
    unfold bucket in Hn. apply in_map_iff in Hn as (r & _ & Hr).
    apply filter_In in Hr as [Hr Hk]. rewrite (H r Hr) in Hk. discriminate.
Qed.

Lemma collect_render (today : date) (rs : list ContactRecord.t)
    (d : list (pystr * list pystr)) :
  collect today rs [] = Ok d ->
  render d =
  match upcoming_spec today rs with
  | [] => NO_UPCOMING
  | gs => join [10] (map format_group gs)
  end.
Proof.
  intros H. pose proof (collect_groups today rs d H) as G.
  destruct d as [|[k l] d0].
  - rewrite <- G. reflexivity.
  - unfold render. rewrite G.
    destruct (upcoming_spec today rs) as [|g gs] eqn:E; [exfalso | reflexivity].
    pose proof (collect_get today rs _ _ H k) as Hk.
    simpl in Hk. rewrite str_eqb_refl in Hk.
    destruct (bucket today k rs) as [|n ns] eqn:B; [discriminate|].
    assert (Hn : In n (bucket today k rs)) by (rewrite B; left; reflexivity).
    unfold bucket in Hn. apply in_map_iff in Hn as (r & _ & Hr).
    apply filter_In in Hr as [Hr Hd].
    rewrite (proj1 (upcoming_spec_nil today rs) E r Hr) in Hd. discriminate.
Qed.

Lemma get_upcoming_birthdays_Ok (today : date) (book : AddressBook.t) (out : pystr) :
  get_upcoming_birthdays today book = Ok out ->
  out = match upcoming_spec today (values book) with
        | [] => NO_UPCOMING
        | gs => join [10] (map format_group gs)
        end.
Proof.
  unfold get_upcoming_birthdays.
  destruct (collect today (values book) []) as [d|] eqn:C; [|discriminate].
  simpl. intros E; injection E as <-. apply collect_render, C.
Qed.

(** ** The occurrence and the window *)

Lemma next_occurrence_Ok (today b occ : date) (delta : Z) :
  next_occurrence today b = Ok (occ, delta) <->
  (exists this_year,
     replace_year b (year today) = Ok this_year /\
     ((0 <= sub_days this_year today /\ occ = this_year) \/
      (sub_days this_year today < 0 /\
       replace_year b (year today + 1) = Ok occ))) /\
  delta = sub_days occ today.
Proof.
  unfold next_occurrence.
  destruct (replace_year b (year today)) as [ty|e] eqn:R; simpl.
  2:{ split; [discriminate|]. intros [(t & Ht & _) _]. discriminate. }
  assert (Rn : replace_year ty (year today + 1) = replace_year b (year today + 1)).
  { apply replace_year_Ok in R as [-> _]. reflexivity. }
  destruct (sub_days ty today <? 0) eqn:L.
  - apply Z.ltb_lt in L. rewrite Rn.
    destruct (replace_year b (year today + 1)) as [ny|e]; simpl.
    + split.
      * intros E; injection E as <- <-. split; [|reflexivity].
        exists ty. split; [reflexivity|]. right. auto.
      * intros [(t & Ht & [[H0 ->] | [_ Hn]]) ->].
        -- injection Ht as <-. lia.
        -- injection Hn as <-. reflexivity.
    + split; [discriminate|].
      intros [(t & Ht & [[H0 ->] | [_ Hn]]) ->].
      * injection Ht as <-. lia.
      * discriminate.
  - apply Z.ltb_ge in L. split.
    + intros E; injection E as <- <-. split; [|reflexivity].
      exists ty. split; [reflexivity|]. left. auto.
    + intros [(t & Ht & [[H0 ->] | [Hlt _]]) ->]; injection Ht as <-.
      * reflexivity.
      * lia.
Qed.

Lemma next_occurrence_valid (today b occ : date) (delta : Z) :
  next_occurrence today b = Ok (occ, delta) -> valid occ.
Proof.
  intros H. apply next_occurrence_Ok in H as [(t & Ht & [[_ ->] | [_ Hn]]) _].
  - apply replace_year_Ok in Ht. tauto.
  - apply replace_year_Ok in Hn. tauto.
Qed.

Lemma listed_day_upcoming (today : date) (r : ContactRecord.t) :
  (exists day, listed_day today r = Some day) <->
  exists b occ, ContactRecord.birthday r = Some b /\
                upcoming today (Birthday.value b) occ.
Proof.
  unfold listed_day, upcoming. split.
  - intros [day H].
    destruct (ContactRecord.birthday r) as [b|]; [|discriminate].
    destruct (next_occurrence today (Birthday.value b)) as [[occ delta]|] eqn:N;
      [|discriminate].
    destruct ((0 <=? delta) && (delta <=? 7)) eqn:W; [|discriminate].
    apply andb_true_iff in W. rewrite !Z.leb_le in W.
    apply next_occurrence_Ok in N as [(t & Ht & Hc) ->].
    exists b, occ. split; [reflexivity|]. exists t. auto.
  - intros (b & occ & -> & t & Ht & Hc & W).
    assert (N : next_occurrence today (Birthday.value b)
                = Ok (occ, sub_days occ today)).
    { apply next_occurrence_Ok. split; [|reflexivity]. exists t. auto. }
    rewrite N.
    replace ((0 <=? sub_days occ today) && (sub_days occ today <=? 7)) with true
      by (symmetry; apply andb_true_iff; rewrite !Z.leb_le; lia).
    destruct (shift_weekend_total occ (next_occurrence_valid _ _ _ _ N))
      as [shifted ->].
    eauto.
Qed.

Lemma listed_upcoming_spec (today : date) (rs : list ContactRecord.t) (n : pystr) :
  listed n (upcoming_spec today rs) <->
  exists r, In r rs /\ record_name r = n /\ exists day, listed_day today r = Some day.
Proof.
  unfold listed, upcoming_spec. split.
  - intros ([day names] & Hg & Hn). simpl in Hn.
    apply in_flat_map in Hg as (day' & _ & Hg).
    destruct (bucket today day' rs) as [|x xs] eqn:B; [destruct Hg|].
    destruct Hg as [Hg | []]. injection Hg as <- <-.
    change (In n (sorted (x :: xs))) in Hn.
    apply (Permutation_in _ (sorted_perm _)) in Hn. rewrite <- B in Hn.
    unfold bucket in Hn. apply in_map_iff in Hn as (r & Hname & Hr).
    apply filter_In in Hr as [Hr Hk].
    exists r. split; [exact Hr|]. split; [exact Hname|].
    destruct (listed_day today r) as [k|]; [eauto | discriminate].
  - intros (r & Hr & <- & day & Hd).
    assert (Hb : In (record_name r) (bucket today day rs)).
    { unfold bucket. apply in_map, filter_In. split; [exact Hr|].
      rewrite Hd. apply str_eqb_refl. }
    exists (day, sorted (bucket today day rs)). split.
    + apply in_flat_map. exists day. split; [eapply listed_day_In; eassumption|].
      destruct (bucket today day rs); [destruct Hb | left; reflexivity].
    + simpl. apply (Permutation_in _ (Permutation_sym (sorted_perm _))). exact Hb.
Qed.

(* ================================================================== *)
(** ** Upcoming birthdays *)

(** C1: a record is named in the result exactly when it has a birthday
    whose occurrence, taken in the year of [today] or, if that day is
    already past ([delta_days < 0]), in the year after, lies from 0 to 7
    days after [today].  For [today = 2024-06-10] the birthday 01.01.2000
    is looked at as 2025-01-01, 205 days ahead, and the contact is not
    listed. *)
Theorem upcoming_birthdays_window :
  (forall (today : date) (book : AddressBook.t) (out : pystr),
     get_upcoming_birthdays today book = Ok out ->
     out = match upcoming_spec today (values book) with
           | [] => NO_UPCOMING
           | gs => join [10] (map format_group gs)
           end /\
     forall n,
       listed n (upcoming_spec today (values book)) <->
       exists r b occ,
         In r (values book) /\ record_name r = n /\
         ContactRecord.birthday r = Some b /\
         upcoming today (Birthday.value b) occ) /\
  (Birthday.init (lit "01.01.2000") = Ok (Birthday.mk (mkdate 2000 1 1)) /\
   next_occurrence monday_2024_06_10 (mkdate 2000 1 1) = Ok (mkdate 2025 1 1, 205) /\
   get_upcoming_birthdays monday_2024_06_10 (book_of (lit "Ann") (lit "01.01.2000"))
     = Ok NO_UPCOMING).
Proof.
  split.
  - intros today book out H. split; [apply get_upcoming_birthdays_Ok, H|].
    intros n. rewrite listed_upcoming_spec. split.
    + intros (r & Hr & Hn & Hd). apply listed_day_upcoming in Hd as (b & occ & Hb & Hu).
      exists r, b, occ. auto.
    + intros (r & b & occ & Hr & Hn & Hb & Hu).
      exists r. split; [exact Hr|]. split; [exact Hn|].
      apply listed_day_upcoming. eauto.
  - repeat split; vm_compute; reflexivity.
Qed.

Lemma upcoming_birthdays_window_witness :
  listed (lit "Ann")
    (upcoming_spec monday_2024_06_10 (values (book_of (lit "Ann") (lit "15.06.2024")))) <->
  exists r b occ,
    In r (values (book_of (lit "Ann") (lit "15.06.2024"))) /\
    record_name r = lit "Ann" /\
    ContactRecord.birthday r = Some b /\
    upcoming monday_2024_06_10 (Birthday.value b) occ.
Proof.
  exact (proj2 (proj1 upcoming_birthdays_window monday_2024_06_10
                  (book_of (lit "Ann") (lit "15.06.2024")) (lit "Monday: Ann")
                  ltac:(vm_compute; reflexivity)) (lit "Ann")).
Defined.

(** C2: an occurrence inside the window that falls on Saturday (5) or
    Sunday (6) is moved forward by [7 - weekday] days, which is a Monday,
    and the record is filed under Monday.  For [today = 2024-06-10] the
    birthday 15.06.2024, a Saturday 5 days ahead, is listed under Monday. *)
Theorem weekend_moves_to_monday :
  (forall (today : date) (r : ContactRecord.t) (b : Birthday.t) (occ : date)
          (delta : Z) (d : list (pystr * list pystr)),
     ContactRecord.birthday r = Some b ->
     next_occurrence today (Birthday.value b) = Ok (occ, delta) ->
     0 <= delta <= 7 ->
     weekday occ = 5 \/ weekday occ = 6 ->
     exists shifted,
       shift_weekend occ = Ok shifted /\
       sub_days shifted occ = 7 - weekday occ /\
       weekday shifted = 0 /\
       visit today r d = Ok (setdefault_append (lit "Monday") (record_name r) d)) /\
  (Birthday.init (lit "15.06.2024") = Ok (Birthday.mk (mkdate 2024 6 15)) /\
   weekday monday_2024_06_10 = 0 /\
   weekday (mkdate 2024 6 15) = 5 /\
   next_occurrence monday_2024_06_10 (mkdate 2024 6 15) = Ok (mkdate 2024 6 15, 5) /\
   shift_weekend (mkdate 2024 6 15) = Ok (mkdate 2024 6 17) /\
   get_upcoming_birthdays monday_2024_06_10 (book_of (lit "Ann") (lit "15.06.2024"))
     = Ok (lit "Monday: Ann")).
Proof.
  split.
  - intros today r b occ delta d Hb N W Hw.
    pose proof (next_occurrence_valid _ _ _ _ N) as V.
    destruct (shift_weekend_weekend occ V ltac:(lia)) as (s & Es & _ & Hs & Hm).
    exists s. split; [exact Es|]. split; [exact Hs|]. split; [exact Hm|].
    unfold visit. rewrite Hb, N. simpl.
    replace ((0 <=? delta) && (delta <=? 7)) with true
      by (symmetry; apply andb_true_iff; rewrite !Z.leb_le; lia).
    rewrite Es. simpl. rewrite Hm. reflexivity.
  - repeat split; vm_compute; reflexivity.
Qed.

Lemma weekend_moves_to_monday_witness :
  exists shifted,
    shift_weekend (mkdate 2024 6 16) = Ok shifted /\
    sub_days shifted (mkdate 2024 6 16) = 7 - weekday (mkdate 2024 6 16) /\
    weekday shifted = 0 /\
    visit monday_2024_06_10 (contact (lit "Bob") (lit "16.06.1990")) []
      = Ok (setdefault_append (lit "Monday")
              (record_name (contact (lit "Bob") (lit "16.06.1990"))) []).
Proof.
  apply (proj1 weekend_moves_to_monday monday_2024_06_10
           (contact (lit "Bob") (lit "16.06.1990"))
           (Birthday.mk (mkdate 1990 6 16)) (mkdate 2024 6 16) 6 []).
  - vm_compute; reflexivity.
  - vm_compute; reflexivity.
  - lia.
  - right. vm_compute; reflexivity.
Defined.

(** The day an occurrence is moved to has the day number the
    specification files it under. *)
Lemma shift_weekend_ordinal (occ shifted : date) :
  valid occ -> shift_weekend occ = Ok shifted ->
  toordinal shifted = filed_ordinal occ.
Proof.
  intros V S. unfold filed_ordinal.
  destruct (Z_lt_le_dec (weekday occ) 5) as [H | H].
  - rewrite (shift_weekend_weekday occ H) in S. injection S as <-.
    replace (5 <=? weekday occ) with false; [reflexivity|].
    symmetry. apply Z.leb_nle. lia.
  - destruct (shift_weekend_weekend occ V H) as (s & Es & _ & Hs & _).
    rewrite Es in S. injection S as <-.
    replace (5 <=? weekday occ) with true by (symmetry; apply Z.leb_le; lia).
    unfold sub_days in Hs. lia.
Qed.

Lemma day_name_at_weekday_name (w : Z) :
  0 <= w < 7 -> day_name_at w = weekday_name w.
Proof.
  intros H.
  assert (C : w = 0 \/ w = 1 \/ w = 2 \/ w = 3 \/ w = 4 \/ w = 5 \/ w = 6) by lia.
  destruct C as [-> | [-> | [-> | [-> | [-> | [-> | ->]]]]]]; reflexivity.
Qed.

(** The loop files a record under [day] exactly when the specification
    does. *)
Lemma listed_day_falls_on (today : date) (r : ContactRecord.t) (day : pystr) :
  listed_day today r = Some day <-> falls_on today day r.
Proof.
  unfold listed_day, falls_on. split.
  - destruct (ContactRecord.birthday r) as [b|]; [|discriminate].
    destruct (next_occurrence today (Birthday.value b)) as [[occ delta]|] eqn:N;
      [|discriminate].
    destruct ((0 <=? delta) && (delta <=? 7)) eqn:W; [|discriminate].
    pose proof (next_occurrence_valid _ _ _ _ N) as V.
    destruct (shift_weekend occ) as [shifted|] eqn:S; [|discriminate].
    intros E; injection E as <-.
    apply andb_true_iff in W. rewrite !Z.leb_le in W.
    apply next_occurrence_Ok in N as [(t & Ht & Hc) ->].
    exists b, occ. split; [reflexivity|]. split.
    + exists t. auto.
    + rewrite day_name_at_weekday_name by apply weekday_range.
      unfold weekday at 1. rewrite (shift_weekend_ordinal occ shifted V S).
      reflexivity.
  - intros (b & occ & -> & (t & Ht & Hc & W) & ->).
    assert (N : next_occurrence today (Birthday.value b)
                = Ok (occ, sub_days occ today)).
    { apply next_occurrence_Ok. split; [|reflexivity]. exists t. auto. }
    rewrite N.
    replace ((0 <=? sub_days occ today) && (sub_days occ today <=? 7)) with true
      by (symmetry; apply andb_true_iff; rewrite !Z.leb_le; lia).
    pose proof (next_occurrence_valid _ _ _ _ N) as V.
    destruct (shift_weekend_total occ V) as [shifted S]. rewrite S.
    rewrite day_name_at_weekday_name by apply weekday_range.
    unfold weekday at 1. rewrite (shift_weekend_ordinal occ shifted V S).
    reflexivity.
Qed.

Lemma map_fst_upcoming_spec (today : date) (rs : list ContactRecord.t) :
  map fst (upcoming_spec today rs)
  = filter (fun day => negb (is_nil (bucket today day rs))) day_name.
Proof.
  unfold upcoming_spec. generalize day_name as days.
  induction days as [|day days IH]; [reflexivity|].
  cbn [flat_map filter]. rewrite map_app, IH.
  destruct (bucket today day rs); reflexivity.
Qed.

Lemma In_upcoming_spec (today : date) (rs : list ContactRecord.t)
    (day : pystr) (names : list pystr) :
  In (day, names) (upcoming_spec today rs) ->
  In day day_name /\ bucket today day rs <> [] /\
  names = sorted (bucket today day rs).
Proof.
  unfold upcoming_spec. intros Hg.
  apply in_flat_map in Hg as (day' & Hd & Hg).
  destruct (bucket today day' rs) as [|x xs] eqn:B; [destruct Hg|].
  destruct Hg as [Hg | []]. injection Hg as <- <-.
  split; [exact Hd|]. rewrite B. split; [discriminate | reflexivity].
Qed.

(** C3: the result is made of groups, one for each week day under which
    some record falls, in the order Monday to Sunday and each day once;
    the names of a group are those of the records that fall on its day,
    in sorted order; a day on which no record falls has no group.  When
    no record falls on any day the result is the fixed sentence and not
    an empty text, as it is for the empty book. *)
Theorem upcoming_birthdays_groups :
  (forall (today : date) (book : AddressBook.t) (out : pystr),
     get_upcoming_birthdays today book = Ok out ->
     exists gs : list (pystr * list pystr),
       out = match gs with
             | [] => NO_UPCOMING
             | _ => join [10] (map format_group gs)
             end /\
       (exists keep, map fst gs = filter keep week) /\
       (forall day,
          In day (map fst gs) <->
          exists r, In r (values book) /\ falls_on today day r) /\
       (forall day names,
          In (day, names) gs ->
          names <> [] /\ StronglySorted str_le names /\
          exists sel,
            (forall r, sel r = true <-> falls_on today day r) /\
            Permutation names (map record_name (filter sel (values book)))) /\
       ((forall r day, In r (values book) -> ~ falls_on today day r) ->
        out = NO_UPCOMING)) /\
  (forall today : date, get_upcoming_birthdays today AddressBook.empty = Ok NO_UPCOMING).
Proof.
  split; [|reflexivity].
  intros today book out H.
  pose proof (get_upcoming_birthdays_Ok _ _ _ H) as Hout.
  exists (upcoming_spec today (values book)).
  assert (Hsel : forall day r,
            match listed_day today r with
            | Some k => str_eqb k day
            | None => false
            end = true <-> falls_on today day r).
  { intros day r. rewrite <- listed_day_falls_on.
    destruct (listed_day today r) as [k|]; [|split; discriminate].
    rewrite str_eqb_eq. split; congruence. }
  assert (Hmem : forall day,
            In day (map fst (upcoming_spec today (values book))) <->
            exists r, In r (values book) /\ falls_on today day r).
  { intros day. split.
    - intros Hd. apply in_map_iff in Hd as ([d names] & <- & Hg).
      apply In_upcoming_spec in Hg as (_ & Hb & _). simpl.
      destruct (bucket today d (values book)) as [|n ns] eqn:B; [congruence|].
      assert (Hn : In n (bucket today d (values book))) by (rewrite B; left; reflexivity).
      unfold bucket in Hn. apply in_map_iff in Hn as (r & _ & Hr).
      apply filter_In in Hr as [Hr Hk]. exists r. split; [exact Hr|].
      apply Hsel, Hk.
    - intros (r & Hr & Hf). rewrite map_fst_upcoming_spec. apply filter_In.
      apply listed_day_falls_on in Hf. split; [eapply listed_day_In, Hf|].
      assert (Hb : In (record_name r) (bucket today day (values book))).
      { unfold bucket. apply in_map, filter_In. split; [exact Hr|].
        rewrite Hf. apply str_eqb_refl. }
      destruct (bucket today day (values book)); [destruct Hb | reflexivity]. }
  split; [|split; [|split; [|split]]].
  - rewrite Hout. destruct (upcoming_spec today (values book)); reflexivity.
  - eexists. apply map_fst_upcoming_spec.
  - exact Hmem.
  - intros day names Hg. apply In_upcoming_spec in Hg as (_ & Hb & ->).
    split; [|split].
    + intros E. apply (proj1 (sorted_nil_iff _)) in E. contradiction.
    + apply sorted_ordered.
    + eexists. split; [intros r; apply Hsel|]. apply sorted_perm.
  - intros Hnone. rewrite Hout.
    rewrite (proj2 (upcoming_spec_nil today (values book))); [reflexivity|].
    intros r Hr. destruct (listed_day today r) as [k|] eqn:L; [|reflexivity].
    exfalso. apply (Hnone r k Hr). apply listed_day_falls_on, L.
Qed.

Lemma upcoming_birthdays_groups_witness :
  exists gs : list (pystr * list pystr),
    (lit "Monday: Bob, Zed" ++ [10] ++ lit "Wednesday: Cy")
    = match gs with
      | [] => NO_UPCOMING
      | _ => join [10] (map format_group gs)
      end /\
    (exists keep, map fst gs = filter keep week) /\
    (forall day,
       In day (map fst gs) <->
       exists r, In r (values book_of_four) /\ falls_on monday_2024_06_10 day r) /\
    (forall day names,
       In (day, names) gs ->
       names <> [] /\ StronglySorted str_le names /\
       exists sel,
         (forall r, sel r = true <-> falls_on monday_2024_06_10 day r) /\
         Permutation names (map record_name (filter sel (values book_of_four)))) /\
    ((forall r day, In r (values book_of_four) -> ~ falls_on monday_2024_06_10 day r) ->
     (lit "Monday: Bob, Zed" ++ [10] ++ lit "Wednesday: Cy") = NO_UPCOMING).
Proof.
  exact (proj1 upcoming_birthdays_groups monday_2024_06_10 book_of_four
           (lit "Monday: Bob, Zed" ++ [10] ++ lit "Wednesday: Cy")
           ltac:(vm_compute; reflexivity)).
Defined.

Lemma collect_raises (today : date) (r : ContactRecord.t) (rs : list ContactRecord.t) :
  In r rs ->
  (forall d, exists e, visit today r d = Raise e) ->
  forall d, exists e, collect today rs d = Raise e.
Proof.
  intros Hin Hr. induction rs as [|r' rs IH]; intros d; [destruct Hin|].
  simpl. destruct Hin as [-> | Hin].
  - destruct (Hr d) as [e ->]. simpl. eauto.
  - destruct (visit today r' d) as [d1|e]; simpl; [apply IH, Hin | eauto].
Qed.

(** C10: with a record born on 29 February in the book and a [today]
    whose year is not a leap year, [get_upcoming_birthdays] raises: the
    replacement of the year has no 29 February to return.  The book
    holding one contact born on 29.02.2000, asked on 2023-06-10, is such
    a case. *)
Theorem upcoming_birthdays_raises_on_feb29 :
  (forall (today : date) (book : AddressBook.t) (r : ContactRecord.t) (b : Birthday.t),
     is_leap (year today) = false ->
     In r (values book) ->
     ContactRecord.birthday r = Some b ->
     month (Birthday.value b) = 2 -> day (Birthday.value b) = 29 ->
     exists e, get_upcoming_birthdays today book = Raise e) /\
  (is_leap (year saturday_2023_06_10) = false /\
   ContactRecord.add_birthday (lit "29.02.2000") (ContactRecord.init (lit "Leap"))
     = (Ok tt, contact (lit "Leap") (lit "29.02.2000")) /\
   ContactRecord.birthday (contact (lit "Leap") (lit "29.02.2000"))
     = Some (Birthday.mk (mkdate 2000 2 29)) /\
   get_upcoming_birthdays saturday_2023_06_10 (book_of (lit "Leap") (lit "29.02.2000"))
     = Raise (ValueError (lit "day is out of range for month"))).
Proof.
  split.
  - intros today book r b L Hr Hb Hm Hd.
    unfold get_upcoming_birthdays.
    destruct (collect_raises today r (values book) Hr) with (d := @nil (pystr * list pystr))
      as [e ->]; [|simpl; eauto].
    intros d. unfold visit, next_occurrence, replace_year, new.
    rewrite Hb, Hm, Hd.
    destruct (negb ((MINYEAR <=? year today) && (year today <=? MAXYEAR)));
      [simpl; eauto|].
    unfold days_in_month. rewrite L. simpl. eauto.
  - repeat split; vm_compute; reflexivity.
Qed.

Lemma upcoming_birthdays_raises_on_feb29_witness :
  exists e,
    get_upcoming_birthdays saturday_2023_06_10 (book_of (lit "Leap") (lit "29.02.2000"))
    = Raise e.
Proof.
  apply (proj1 upcoming_birthdays_raises_on_feb29 saturday_2023_06_10
           (book_of (lit "Leap") (lit "29.02.2000"))
           (contact (lit "Leap") (lit "29.02.2000"))
           (Birthday.mk (mkdate 2000 2 29))).
  - vm_compute; reflexivity.
  - left. vm_compute; reflexivity.
  - vm_compute; reflexivity.
  - reflexivity.
  - reflexivity.
Defined.

(* ================================================================== *)
(** ** Birthday: the date format *)

Import Strptime.

Lemma isdecimal_not_dot (c : Z) : isdecimal c = true -> c <> DOT.
Proof. intros H ->. vm_compute in H. discriminate. Qed.

Lemma isdecimal_not_space (c : Z) : isdecimal c = true -> c <> SPACE.
Proof. intros H ->. vm_compute in H. discriminate. Qed.

Lemma in_range_iff (lo hi c : Z) : in_range lo hi c = true <-> lo <= c <= hi.
Proof. unfold in_range. rewrite andb_true_iff, !Z.leb_le. reflexivity. Qed.

Lemma in_alt1 (p : Z -> bool) (s g r : pystr) :
  In (g, r) (alt1 p s) <-> exists a, g = [a] /\ s = a :: r /\ p a = true.
Proof.
  unfold alt1. destruct s as [|a rest].
  - split; [intros [] | intros (a & _ & E & _); discriminate].
  - destruct (p a) eqn:P; simpl.
    + split.
      * intros [E | []]. injection E as <- <-. eauto.
      * intros (a' & -> & E & _). injection E as <- <-. auto.
    + split; [intros [] | intros (a' & _ & E & P')].
      injection E as <- <-. congruence.
Qed.

Lemma in_alt2 (p q : Z -> bool) (s g r : pystr) :
  In (g, r) (alt2 p q s) <->
  exists a b, g = [a; b] /\ s = a :: b :: r /\ p a = true /\ q b = true.
Proof.
  unfold alt2. destruct s as [|a [|b rest]].
  - split; [intros [] | intros (a & b & _ & E & _); discriminate].
  - split; [intros [] | intros (a' & b & _ & E & _); discriminate].
  - destruct (p a && q b) eqn:P; simpl.
    + apply andb_true_iff in P as [Pa Qb]. split.
      * intros [E | []]. injection E as <- <-. exists a, b. auto.
      * intros (a' & b' & -> & E & _). injection E as <- <- <-. auto.
    + split; [intros [] | intros (a' & b' & _ & E & Pa & Qb)].
      injection E as <- <- <-. rewrite Pa, Qb in P. discriminate.
Qed.

Lemma in_re_d (s g r : pystr) :
  In (g, r) (re_d s) <-> s = g ++ r /\ day_field g = true.
Proof.
  unfold re_d. rewrite !in_app_iff, !in_alt2, in_alt1. unfold is_char, SPACE.
  split.
  - intros [H | [H | [H | [H | H]]]].
    + destruct H as (a & b & -> & -> & Pa & Qb). split; [reflexivity|].
      simpl. rewrite Pa, Qb. reflexivity.
    + destruct H as (a & b & -> & -> & Pa & Qb). split; [reflexivity|].
      simpl. rewrite Pa, Qb. rewrite !orb_true_r. reflexivity.
    + destruct H as (a & b & -> & -> & Pa & Qb). split; [reflexivity|].
      simpl. rewrite Pa, Qb. rewrite !orb_true_r. reflexivity.
    + destruct H as (a & -> & -> & Pa). split; [reflexivity|]. exact Pa.
    + destruct H as (a & b & -> & -> & Pa & Qb). split; [reflexivity|].
      simpl. rewrite Pa, Qb. rewrite !orb_true_r. reflexivity.
  - intros [-> F]. destruct g as [|a [|b [|c g]]]; try discriminate.
    + right; right; right; left. exists a. auto.
    + simpl in F. rewrite !orb_true_iff, !andb_true_iff in F.
      destruct F as [[[F | F] | F] | F].
      * left. exists a, b. tauto.
      * right; left. exists a, b. tauto.
      * right; right; left. exists a, b. tauto.
      * right; right; right; right. exists a, b. tauto.
Qed.

Lemma in_re_m (s g r : pystr) :
  In (g, r) (re_m s) <-> s = g ++ r /\ month_field g = true.
Proof.
  unfold re_m. rewrite !in_app_iff, !in_alt2, in_alt1. unfold is_char.
  split.
  - intros [H | [H | H]].
    + destruct H as (a & b & -> & -> & Pa & Qb). split; [reflexivity|].
      simpl. rewrite Pa, Qb. reflexivity.
    + destruct H as (a & b & -> & -> & Pa & Qb). split; [reflexivity|].
      simpl. rewrite Pa, Qb. rewrite !orb_true_r. reflexivity.
    + destruct H as (a & -> & -> & Pa). split; [reflexivity|]. exact Pa.
  - intros [-> F]. destruct g as [|a [|b [|c g]]]; try discriminate.
    + right; right. exists a. auto.
    + simpl in F. rewrite !orb_true_iff, !andb_true_iff in F.
      destruct F as [F | F].
      * left. exists a, b. tauto.
      * right; left. exists a, b. tauto.
Qed.

Lemma re_Y_spec (s g r : pystr) :
  re_Y s = Some (g, r) <-> s = g ++ r /\ year_field g = true.
Proof.
  unfold re_Y, year_field. split.
  - destruct s as [|a [|b [|c [|d rest]]]]; try discriminate.
    destruct (isdecimal a && isdecimal b && isdecimal c && isdecimal d) eqn:D;
      [|discriminate].
    intros E; injection E as <- <-. split; [reflexivity|].
    simpl. rewrite !andb_true_iff in D. destruct D as [[[-> ->] ->] ->].
    reflexivity.
  - intros [-> F]. apply andb_true_iff in F as [L D]. apply Nat.eqb_eq in L.
    destruct g as [|a [|b [|c [|d [|x g]]]]]; try discriminate. simpl in *.
    rewrite !andb_true_iff in D. destruct D as (-> & -> & -> & -> & _).
    reflexivity.
Qed.

Lemma first_match_sound {A B} (cands : list A) (k : A -> option B) (r : B) :
  first_match cands k = Some r -> exists c, In c cands /\ k c = Some r.
Proof.
  induction cands as [|c cands IH]; simpl; [discriminate|].
  destruct (k c) as [r'|] eqn:K.
  - intros E; injection E as <-. eauto.
  - intros H. destruct (IH H) as (c' & Hin & Hk). eauto.
Qed.

(** When every candidate that leads to a match leads to the same match,
    the order of the candidates does not matter. *)
Lemma first_match_complete {A B} (cands : list A) (k : A -> option B)
    (c : A) (r : B) :
  In c cands -> k c = Some r ->
  (forall c', In c' cands -> k c' <> None -> k c' = Some r) ->
  first_match cands k = Some r.
Proof.
  intros Hin Hk Hu. induction cands as [|c1 cands IH]; [destruct Hin|].
  simpl. destruct (k c1) as [r1|] eqn:K.
  - rewrite <- K. apply Hu; [left; reflexivity | congruence].
  - destruct Hin as [-> | Hin]; [congruence|].
    apply IH; [exact Hin|]. intros c' Hc'. apply Hu. right; exact Hc'.
Qed.

Lemma literal_dot_Some {B} (s : pystr) (k : pystr -> option B) (r : B) :
  literal_dot s k = Some r <-> exists s', s = DOT :: s' /\ k s' = Some r.
Proof.
  unfold literal_dot. destruct s as [|c s'].
  - split; [discriminate | intros (s' & E & _); discriminate].
  - destruct (c =? DOT) eqn:E.
    + apply Z.eqb_eq in E; subst c. split; [eauto|].
      intros (s'' & E & K). injection E as <-. exact K.
    + apply Z.eqb_neq in E. split; [discriminate|].
      intros (s'' & E' & _). injection E' as -> _. congruence.
Qed.

(** The text ahead of the first dot is determined by the whole text. *)
Lemma dot_split_unique (g g' r r' : pystr) :
  g ++ DOT :: r = g' ++ DOT :: r' ->
  ~ In DOT g -> ~ In DOT g' -> g = g' /\ r = r'.
Proof.
  revert g'; induction g as [|a g IH]; intros [|a' g']; simpl; intros E N N'.
  - injection E as <-. auto.
  - injection E as <- _. tauto.
  - injection E as -> _. tauto.
  - injection E as <- E. destruct (IH g' E) as [-> ->]; [tauto | tauto | auto].
Qed.

Lemma day_field_no_dot (g : pystr) : day_field g = true -> ~ In DOT g.
Proof.
  unfold DOT. destruct g as [|a [|b [|c g]]]; simpl; try discriminate.
  - rewrite in_range_iff. intros H [E | []]. lia.
  - rewrite !orb_true_iff, !andb_true_iff, !in_range_iff, !Z.eqb_eq.
    intros H [E | [E | []]]; [lia|]. subst b.
    destruct H as [[[H | [_ H]] | H] | H]; try lia.
    vm_compute in H. discriminate.
Qed.

Lemma month_field_no_dot (g : pystr) : month_field g = true -> ~ In DOT g.
Proof.
  unfold DOT. destruct g as [|a [|b [|c g]]]; simpl; try discriminate.
  - rewrite in_range_iff. intros H [E | []]. lia.
  - rewrite !orb_true_iff, !andb_true_iff, !in_range_iff, !Z.eqb_eq.
    intros H [E | [E | []]]; lia.
Qed.

Lemma year_field_no_dot (g : pystr) : year_field g = true -> ~ In DOT g.
Proof.
  unfold year_field. rewrite andb_true_iff, forallb_forall.
  intros [_ H] Hin. apply (isdecimal_not_dot DOT (H _ Hin)). reflexivity.
Qed.

(** What the regular expression matches: a day field, a dot, a month
    field, a dot and a year field, at the start of the text. *)
Lemma re_match_spec (s d m y rest : pystr) :
  re_match s = Some (d, m, y, rest) <->
  s = d ++ DOT :: m ++ DOT :: y ++ rest /\
  day_field d = true /\ month_field m = true /\ year_field y = true.
Proof.
  unfold re_match. split.
  - intros H. apply first_match_sound in H as ([g s1] & Hd & H).
    apply in_re_d in Hd as [-> Fd].
    apply literal_dot_Some in H as (s2 & -> & H).
    apply first_match_sound in H as ([gm s3] & Hm & H).
    apply in_re_m in Hm as [-> Fm].
    apply literal_dot_Some in H as (s4 & -> & H).
    destruct (re_Y s4) as [[gy r']|] eqn:Y; [|discriminate].
    apply re_Y_spec in Y as [-> Fy].
    injection H as <- <- <- <-. auto.
  - intros (-> & Fd & Fm & Fy).
    assert (Y : re_Y (y ++ rest) = Some (y, rest)) by (apply re_Y_spec; auto).
    assert (Inner :
      first_match (re_m (m ++ DOT :: y ++ rest)) (fun '(m0, s3) =>
        literal_dot s3 (fun s4 =>
          match re_Y s4 with
          | Some (y0, rest0) => Some (d, m0, y0, rest0)
          | None => None
          end)) = Some (d, m, y, rest)).
    { apply first_match_complete with (c := (m, DOT :: y ++ rest)).
      - apply in_re_m. auto.
      - apply literal_dot_Some. eexists; split; [reflexivity|].
        rewrite Y. reflexivity.
      - intros [gm s3] Hm Hk. apply in_re_m in Hm as [E Fm'].
        destruct (literal_dot s3 _) as [res|] eqn:L; [|congruence].
        apply literal_dot_Some in L as (s4 & -> & L).
        destruct (dot_split_unique _ _ _ _ E) as [<- <-];
          [apply month_field_no_dot; assumption
          | apply month_field_no_dot; assumption |].
        rewrite Y in L. symmetry. exact L. }
    apply first_match_complete with (c := (d, DOT :: m ++ DOT :: y ++ rest)).
    + apply in_re_d. auto.
    + apply literal_dot_Some. eexists; split; [reflexivity|]. exact Inner.
    + intros [g s1] Hd Hk. apply in_re_d in Hd as [E Fd'].
      destruct (literal_dot s1 _) as [res|] eqn:L; [|congruence].
      apply literal_dot_Some in L as (s2 & -> & L).
      destruct (dot_split_unique _ _ _ _ E) as [<- <-];
        [apply day_field_no_dot; assumption
        | apply day_field_no_dot; assumption |].
      rewrite <- L. exact Inner.
Qed.

(** *** The numbers the fields denote *)

Lemma in_range_digit (lo hi c : Z) :
  48 <= lo -> hi <= 57 -> in_range lo hi c = true -> isdecimal c = true.
Proof.
  intros Hlo Hhi H. apply in_range_iff in H. apply ascii_digit_isdecimal.
  unfold ascii_digit. apply andb_true_iff. rewrite !Z.leb_le. lia.
Qed.

Lemma digits_value_all (s : pystr) :
  forallb isdecimal s = true ->
  forall acc,
    digits_value acc s =
    Some (fold_left (fun acc c => if c =? 32 then acc else 10 * acc + digit_value c) s acc).
Proof.
  induction s as [|c s IH]; simpl; intros H acc; [reflexivity|].
  apply andb_true_iff in H as [Hc Hs]. rewrite Hc.
  pose proof (isdecimal_not_space c Hc) as Hn. unfold SPACE in Hn.
  apply Z.eqb_neq in Hn. rewrite Hn. apply IH, Hs.
Qed.

Lemma int_digits (s : pystr) :
  s <> [] -> forallb isdecimal s = true -> int s = Some (field_value s).
Proof.
  intros Hne H. unfold int, field_value.
  destruct s as [|c s]; [congruence|].
  pose proof H as H'. simpl in H'. apply andb_true_iff in H' as [Hc _].
  pose proof (isdecimal_not_space c Hc) as Hn. apply Z.eqb_neq in Hn.
  cbn [lstrip]. rewrite Hn. apply digits_value_all, H.
Qed.

Lemma int_space_digit (b : Z) :
  isdecimal b = true -> int [SPACE; b] = Some (field_value [SPACE; b]).
Proof.
  intros Hb. pose proof (isdecimal_not_space b Hb) as Hn.
  apply Z.eqb_neq in Hn. unfold int, field_value. cbn [lstrip].
  rewrite Z.eqb_refl, Hn. simpl. rewrite Hb.
  unfold SPACE in Hn. rewrite Hn. reflexivity.
Qed.

Ltac digits_shape :=
  split; [discriminate | split; [|simpl; lia]];
  cbn [forallb];
  repeat match goal with
  | H : in_range ?lo ?hi ?c = true |- context [isdecimal ?c] =>
      rewrite (in_range_digit lo hi c) by (lia || exact H)
  | H : isdecimal ?c = true |- context [isdecimal ?c] => rewrite H
  end;
  reflexivity.

(** A day field is one or two digits, or a space and a digit. *)
Lemma day_field_shape (g : pystr) :
  day_field g = true ->
  (g <> [] /\ forallb isdecimal g = true /\ (length g <= 2)%nat) \/
  (exists b, g = [SPACE; b] /\ isdecimal b = true).
Proof.
  destruct g as [|a [|b [|c g]]]; cbn [day_field]; try discriminate.
  - intros H. left. digits_shape.
  - rewrite !orb_true_iff, !andb_true_iff, !Z.eqb_eq.
    intros [[[[-> H] | [Ha H]] | [-> H]] | [-> H]].
    + left. digits_shape.
    + left. digits_shape.
    + left. digits_shape.
    + right. exists b. split; [reflexivity|].
      apply (in_range_digit 49 57 b); (lia || exact H).
Qed.

Lemma month_field_shape (g : pystr) :
  month_field g = true ->
  g <> [] /\ forallb isdecimal g = true /\ (length g <= 2)%nat.
Proof.
  destruct g as [|a [|b [|c g]]]; cbn [month_field]; try discriminate.
  - intros H. digits_shape.
  - rewrite !orb_true_iff, !andb_true_iff, !Z.eqb_eq.
    intros [[-> H] | [-> H]]; digits_shape.
Qed.

Lemma year_field_shape (g : pystr) :
  year_field g = true ->
  g <> [] /\ forallb isdecimal g = true /\ length g = 4%nat.
Proof.
  unfold year_field. rewrite andb_true_iff, Nat.eqb_eq. intros [L D].
  split; [|auto]. intros ->. discriminate.
Qed.

Lemma int_day_field (g : pystr) :
  day_field g = true -> int g = Some (field_value g).
Proof.
  intros H. destruct (day_field_shape g H) as [(Hne & D & _) | (b & -> & D)].
  - apply int_digits; assumption.
  - apply int_space_digit, D.
Qed.

Lemma int_month_field (g : pystr) :
  month_field g = true -> int g = Some (field_value g).
Proof.
  intros H. destruct (month_field_shape g H) as (Hne & D & _).
  apply int_digits; assumption.
Qed.

Lemma int_year_field (g : pystr) :
  year_field g = true -> int g = Some (field_value g).
Proof.
  intros H. destruct (year_field_shape g H) as (Hne & D & _).
  apply int_digits; assumption.
Qed.

(** What [strptime] accepts and what it returns. *)
Lemma strptime_spec (s : pystr) (dt : date) :
  strptime s = Some dt <->
  exists d m y,
    s = d ++ DOT :: m ++ DOT :: y /\
    day_field d = true /\ month_field m = true /\ year_field y = true /\
    new (field_value y) (field_value m) (field_value d) = Ok dt.
Proof.
  unfold strptime. split.
  - destruct (re_match s) as [[[[d m] y] rest]|] eqn:R; [|discriminate].
    apply re_match_spec in R as (-> & Fd & Fm & Fy).
    destruct rest; [|discriminate]. rewrite app_nil_r.
    rewrite (int_year_field y Fy), (int_month_field m Fm), (int_day_field d Fd).
    destruct (new _ _ _) as [dt'|] eqn:N; [|discriminate].
    intros E; injection E as <-. exists d, m, y. auto.
  - intros (d & m & y & -> & Fd & Fm & Fy & N).
    assert (R : re_match (d ++ DOT :: m ++ DOT :: y) = Some (d, m, y, [])).
    { apply re_match_spec. rewrite app_nil_r. auto. }
    rewrite R.
    rewrite (int_year_field y Fy), (int_month_field m Fm), (int_day_field d Fd), N.
    reflexivity.
Qed.

Lemma Birthday_init_Ok (s : pystr) (b : Birthday.t) :
  Birthday.init s = Ok b <->
  exists d m y,
    s = d ++ DOT :: m ++ DOT :: y /\
    day_field d = true /\ month_field m = true /\ year_field y = true /\
    valid (mkdate (field_value y) (field_value m) (field_value d)) /\
    b = Birthday.mk (mkdate (field_value y) (field_value m) (field_value d)).
Proof.
  unfold Birthday.init. split.
  - destruct (strptime s) as [dt|] eqn:P; [|discriminate].
    intros E; injection E as <-.
    apply strptime_spec in P as (d & m & y & E & Fd & Fm & Fy & N).
    apply new_Ok in N as [-> V]. exists d, m, y. auto 10.
  - intros (d & m & y & E & Fd & Fm & Fy & V & ->).
    assert (P : strptime s = Some (mkdate (field_value y) (field_value m) (field_value d))).
    { apply strptime_spec. exists d, m, y. repeat (split; [assumption|]).
      apply new_Ok. auto. }
    rewrite P. reflexivity.
Qed.

Lemma Birthday_init_Raise (s : pystr) (e : exn) :
  Birthday.init s = Raise e -> e = InvalidDateFormat.
Proof.
  unfold Birthday.init. destruct (strptime s); [discriminate|].
  intros E; injection E as <-. reflexivity.
Qed.

Lemma Birthday_init_cases (s : pystr) :
  (exists b, Birthday.init s = Ok b) \/ Birthday.init s = Raise InvalidDateFormat.
Proof.
  unfold Birthday.init. destruct (strptime s); eauto.
Qed.

Lemma forallb_In_isdecimal (g : pystr) (c : Z) :
  forallb isdecimal g = true -> In c g -> isdecimal c = true.
Proof. intros H Hin. rewrite forallb_forall in H. apply H, Hin. Qed.

(** Every accepted text has two dots, eight to ten characters, nothing
    but digits, dots and spaces, and denotes a real date. *)
Lemma Birthday_init_shape (s : pystr) (b : Birthday.t) :
  Birthday.init s = Ok b ->
  count_occ Z.eq_dec s DOT = 2%nat /\
  (8 <= length s <= 10)%nat /\
  (forall c, In c s -> isdecimal c = true \/ c = DOT \/ c = SPACE) /\
  valid (Birthday.value b).
Proof.
  intros H. apply Birthday_init_Ok in H as (d & m & y & -> & Fd & Fm & Fy & V & ->).
  pose proof (day_field_no_dot d Fd) as Nd.
  pose proof (month_field_no_dot m Fm) as Nm.
  pose proof (year_field_no_dot y Fy) as Ny.
  apply (count_occ_not_In Z.eq_dec) in Nd, Nm, Ny.
  destruct (month_field_shape m Fm) as (_ & Dm & Lm).
  destruct (year_field_shape y Fy) as (_ & Dy & Ly).
  assert (Ld : (1 <= length d <= 2)%nat).
  { destruct d as [|a [|a' [|a'' d]]]; try discriminate; simpl; lia. }
  assert (Lm1 : (1 <= length m)%nat).
  { destruct m; [discriminate | simpl; lia]. }
  assert (Cd : forall c, In c d -> isdecimal c = true \/ c = SPACE).
  { intros c Hc. destruct (day_field_shape d Fd) as [(_ & D & _) | (x & -> & D)].
    - left. exact (forallb_In_isdecimal d c D Hc).
    - destruct Hc as [<- | [<- | []]]; auto. }
  split; [|split; [|split]].
  - rewrite !count_occ_app, !count_occ_cons_eq, !count_occ_app, !count_occ_cons_eq
      by reflexivity.
    rewrite Nd, Nm, Ny. reflexivity.
  - rewrite !length_app; simpl. rewrite !length_app; simpl. lia.
  - intros c Hc. apply in_app_or in Hc as [Hc | [<- | Hc]]; auto.
    + destruct (Cd c Hc); auto.
    + apply in_app_or in Hc as [Hc | [<- | Hc]]; auto.
      * left. exact (forallb_In_isdecimal m c Dm Hc).
      * left. exact (forallb_In_isdecimal y c Dy Hc).
  - exact V.
Qed.

(** C9, as the code has it: [Birthday(s)] returns exactly for the texts
    made of a day field, a dot, a month field, a dot and a year field
    that denote a real date of the years 1 to 9999, and raises
    InvalidDateFormat for every other text: other separators, a day or a
    month out of range, a field that is not a number, a year of other
    than four digits.  The day and month fields may be written with one
    digit. *)
Theorem Birthday_init_format (s : pystr) :
  (forall b,
     Birthday.init s = Ok b <->
     exists d m y,
       s = d ++ DOT :: m ++ DOT :: y /\
       day_field d = true /\ month_field m = true /\ year_field y = true /\
       valid (mkdate (field_value y) (field_value m) (field_value d)) /\
       b = Birthday.mk (mkdate (field_value y) (field_value m) (field_value d))) /\
  ((exists b, Birthday.init s = Ok b /\ valid (Birthday.value b)) \/
   Birthday.init s = Raise InvalidDateFormat) /\
  (count_occ Z.eq_dec s DOT <> 2%nat -> Birthday.init s = Raise InvalidDateFormat) /\
  ((exists c, In c s /\ isdecimal c = false /\ c <> DOT /\ c <> SPACE) ->
   Birthday.init s = Raise InvalidDateFormat) /\
  ((length s < 8 \/ 10 < length s)%nat -> Birthday.init s = Raise InvalidDateFormat).
Proof.
  split; [intros b; apply Birthday_init_Ok|].
  split; [|split; [|split]].
  - destruct (Birthday_init_cases s) as [[b H] | H]; [left | right; exact H].
    exists b. split; [exact H|]. apply (Birthday_init_shape s b H).
  - intros Hc. destruct (Birthday_init_cases s) as [[b H] | H]; [|exact H].
    exfalso. apply Hc. apply (Birthday_init_shape s b H).
  - intros (c & Hin & Hd & Hdot & Hsp).
    destruct (Birthday_init_cases s) as [[b H] | H]; [|exact H].
    exfalso. destruct (Birthday_init_shape s b H) as (_ & _ & Hch & _).
    destruct (Hch c Hin) as [E | [E | E]]; congruence.
  - intros Hl. destruct (Birthday_init_cases s) as [[b H] | H]; [|exact H].
    exfalso. destruct (Birthday_init_shape s b H) as (_ & Hlen & _). lia.
Qed.

Lemma Birthday_init_format_witness :
  Birthday.init (lit "15/06/2024") = Raise InvalidDateFormat /\
  Birthday.init (lit "31.04.2024") = Raise InvalidDateFormat.
Proof.
  split.
  - apply (proj1 (proj2 (proj2 (Birthday_init_format (lit "15/06/2024"))))).
    vm_compute. discriminate.
  - destruct (proj1 (proj2 (Birthday_init_format (lit "31.04.2024"))))
      as [(b & H & _) | H]; [|exact H].
    vm_compute in H. discriminate.
Defined.

(** C9, as stated, fails: the text 1.6.2024, with a one-digit day and a
    one-digit month, is accepted and read as 1 June 2024. *)
Lemma Birthday_init_accepts_one_digit_fields :
  Birthday.init (lit "1.6.2024") = Ok (Birthday.mk (mkdate 2024 6 1)) /\
  day_field (lit "1") = true /\ month_field (lit "6") = true /\
  length (lit "1.6.2024") = 8%nat.
Proof. repeat split; vm_compute; reflexivity. Qed.

(** *** Writing a date back *)

Lemma ascii_digit_iff (c : Z) : ascii_digit c = true <-> 48 <= c <= 57.
Proof. unfold ascii_digit. rewrite andb_true_iff, !Z.leb_le. reflexivity. Qed.

Lemma field_value_ascii (g : pystr) :
  forallb ascii_digit g = true ->
  forall acc,
    fold_left (fun acc c => if c =? 32 then acc else 10 * acc + digit_value c) g acc
    = fold_left (fun acc c => 10 * acc + (c - 48)) g acc.
Proof.
  induction g as [|c g IH]; simpl; intros H acc; [reflexivity|].
  apply andb_true_iff in H as [Hc Hg].
  rewrite (ascii_digit_value c Hc). apply ascii_digit_iff in Hc.
  replace (c =? 32) with false by (symmetry; apply Z.eqb_neq; lia).
  apply IH, Hg.
Qed.

Lemma two_digits_inv (a b : Z) :
  48 <= a <= 57 -> 48 <= b <= 57 ->
  two_digits (10 * (10 * 0 + (a - 48)) + (b - 48)) = [a; b].
Proof.
  intros Ha Hb. unfold two_digits. f_equal; [|f_equal].
  - Z.to_euclidean_division_equations. lia.
  - Z.to_euclidean_division_equations. lia.
Qed.

Lemma four_digits_inv (a b c d : Z) :
  48 <= a <= 57 -> 48 <= b <= 57 -> 48 <= c <= 57 -> 48 <= d <= 57 ->
  four_digits (10 * (10 * (10 * (10 * 0 + (a - 48)) + (b - 48)) + (c - 48)) + (d - 48))
  = [a; b; c; d].
Proof.
  intros Ha Hb Hc Hd. unfold four_digits. repeat f_equal.
  - Z.to_euclidean_division_equations. lia.
  - Z.to_euclidean_division_equations. lia.
  - Z.to_euclidean_division_equations. lia.
  - Z.to_euclidean_division_equations. lia.
Qed.

Lemma year_digits_four (platform : libc) (n : Z) :
  platform = PadsYear \/ 1000 <= n ->
  year_digits platform n = four_digits n.
Proof.
  intros [-> | H]; [reflexivity|].
  destruct platform; [reflexivity|].
  unfold year_digits, four_digits. cbn [drop_zeros].
  replace (48 + n / 1000 =? 48) with false; [reflexivity|].
  symmetry. apply Z.eqb_neq. Z.to_euclidean_division_equations. lia.
Qed.

(** Where the round trip holds: a text of two digits, a dot, two digits,
    a dot and four digits, the digits being [0-9], that [Birthday]
    accepts is written back unchanged by [str] for every year from 1000
    on, and for the earlier years where the platform writes [%Y] with
    four digits. *)
Theorem Birthday_round_trip (platform : libc) (s : pystr) (b : Birthday.t) :
  strict_form s = true ->
  Birthday.init s = Ok b ->
  platform = PadsYear \/ 1000 <= year (Birthday.value b) ->
  Birthday.str platform b = s.
Proof.
  intros F H P.
  destruct s as [|d1 [|d2 [|p1 [|m1 [|m2 [|p2 [|y1 [|y2 [|y3 [|y4 [|x s]]]]]]]]]]];
    try discriminate.
  unfold strict_form in F. rewrite !andb_true_iff, !Z.eqb_eq in F.
  destruct F as [[F ->] ->]. cbn [forallb] in F.
  rewrite !andb_true_iff in F.
  destruct F as (A1 & A2 & A3 & A4 & A5 & A6 & A7 & A8 & _).
  apply Birthday_init_Ok in H as (d & m & y & E & Fd & Fm & Fy & V & ->).
  change ([d1; d2] ++ DOT :: ([m1; m2] ++ DOT :: [y1; y2; y3; y4])
          = d ++ DOT :: m ++ DOT :: y) in E.
  pose proof A1 as B1. pose proof A2 as B2. pose proof A3 as B3.
  pose proof A4 as B4. pose proof A5 as B5. pose proof A6 as B6.
  pose proof A7 as B7. pose proof A8 as B8.
  rewrite ascii_digit_iff in B1, B2, B3, B4, B5, B6, B7, B8.
  apply dot_split_unique in E as [<- E];
    [| unfold DOT; simpl; lia | apply day_field_no_dot, Fd].
  apply dot_split_unique in E as [<- <-];
    [| unfold DOT; simpl; lia | apply month_field_no_dot, Fm].
  unfold Birthday.str, strftime. cbn [Birthday.value year month day] in *.
  rewrite year_digits_four by exact P.
  unfold field_value.
  rewrite !field_value_ascii by (cbn [forallb]; rewrite ?A1, ?A2, ?A3, ?A4, ?A5, ?A6, ?A7, ?A8; reflexivity).
  cbn [fold_left].
  rewrite two_digits_inv, two_digits_inv, four_digits_inv by assumption.
  reflexivity.
Qed.

Lemma Birthday_round_trip_witness :
  Birthday.str PlainYear (Birthday.mk (mkdate 2024 6 15)) = lit "15.06.2024".
Proof.
  apply (Birthday_round_trip PlainYear (lit "15.06.2024")
           (Birthday.mk (mkdate 2024 6 15))).
  - vm_compute; reflexivity.
  - vm_compute; reflexivity.
  - right. simpl. lia.
Defined.

(** C8 does not hold of the code where the platform writes the year as
    a plain number: 05.06.0024 is a text of the form DD.MM.YYYY and a
    real date, [Birthday] accepts it, and [str] writes it back as
    05.06.24, which is not of the form DD.MM.YYYY the format string and
    the docstring of the class name. *)
Lemma Birthday_round_trip_fails_below_1000 :
  strict_form (lit "05.06.0024") = true /\
  Birthday.init (lit "05.06.0024") = Ok (Birthday.mk (mkdate 24 6 5)) /\
  Birthday.str PlainYear (Birthday.mk (mkdate 24 6 5)) = lit "05.06.24" /\
  Birthday.str PlainYear (Birthday.mk (mkdate 24 6 5)) <> lit "05.06.0024".
Proof.
  repeat split; try (vm_compute; reflexivity).
  vm_compute. discriminate.
Qed.

(* ================================================================== *)
(** ** When the query returns

    Away from 29 February and from the last year of the calendar, the
    loop raises nothing and the query returns its text. *)

Lemma replace_year_returns (b : date) (y : Z) :
  valid b -> MINYEAR <= y <= MAXYEAR ->
  ~ (month b = 2 /\ day b = 29) ->
  exists d, replace_year b y = Ok d.
Proof.
  intros (_ & Hm & Hd) Hy N. unfold replace_year.
  exists (mkdate y (month b) (day b)). apply new_Ok. split; [reflexivity|].
  unfold valid; cbn [year month day]. split; [exact Hy|]. split; [exact Hm|].
  unfold days_in_month in *.
  destruct (month b =? 2) eqn:E.
  - apply Z.eqb_eq in E. rewrite E in *. cbn [andb] in *.
    revert Hd. calc_index. destruct (is_leap (year b)), (is_leap y); lia.
  - cbn [andb] in *. exact Hd.
Qed.

Lemma visit_returns (today : date) (r : ContactRecord.t)
    (d : list (pystr * list pystr)) :
  MINYEAR <= year today < MAXYEAR ->
  (forall b, ContactRecord.birthday r = Some b ->
     valid (Birthday.value b) /\
     ~ (month (Birthday.value b) = 2 /\ day (Birthday.value b) = 29)) ->
  exists d', visit today r d = Ok d'.
Proof.
  intros Hy Hb. unfold visit.
  destruct (ContactRecord.birthday r) as [b|]; [|eauto].
  destruct (Hb b eq_refl) as [V N].
  assert (Hn : exists res, next_occurrence today (Birthday.value b) = Ok res).
  { unfold next_occurrence.
    destruct (replace_year_returns (Birthday.value b) (year today) V ltac:(lia) N)
      as [ty Ety].
    rewrite Ety. simpl. destruct (sub_days ty today <? 0); [|eauto].
    pose proof (replace_year_Ok _ _ _ Ety) as [-> Vty].
    unfold MINYEAR, MAXYEAR in *.
    destruct (replace_year_returns (mkdate (year today) (month (Birthday.value b))
                                      (day (Birthday.value b)))
                (year today + 1) Vty ltac:(unfold MINYEAR, MAXYEAR; lia) N)
      as [ny ->].
    simpl. eauto. }
  destruct Hn as [[occ delta] N']. rewrite N'. simpl.
  destruct ((0 <=? delta) && (delta <=? 7)); [|eauto].
  destruct (shift_weekend_total occ (next_occurrence_valid _ _ _ _ N')) as [s ->].
  simpl. eauto.
Qed.

Lemma get_upcoming_birthdays_returns (today : date) (book : AddressBook.t) :
  MINYEAR <= year today < MAXYEAR ->
  (forall r b, In r (values book) -> ContactRecord.birthday r = Some b ->
     valid (Birthday.value b) /\
     ~ (month (Birthday.value b) = 2 /\ day (Birthday.value b) = 29)) ->
  exists out, get_upcoming_birthdays today book = Ok out.
Proof.
  intros Hy Hb. unfold get_upcoming_birthdays.
  assert (C : forall rs d, incl rs (values book) ->
                exists d', collect today rs d = Ok d').
  { induction rs as [|r rs IH]; intros d Hi; simpl; [eauto|].
    destruct (visit_returns today r d Hy) as [d1 ->].
    - intros b Hr. apply (Hb r b); [apply Hi; left; reflexivity | exact Hr].
    - simpl. apply IH. intros x Hx. apply Hi. right; exact Hx. }
  destruct (C (values book) [] (incl_refl _)) as [d ->]. simpl. eauto.
Qed.

(* ================================================================== *)
(** * Further properties of the record, the book and the handlers *)

(** ** Record: finding and removing a phone *)

Lemma first_index_Some (v : pystr) (ps : list Phone.t) (i : nat) :
  first_index v ps = Some i <->
  nth_error (map Phone.value ps) i = Some v /\
  forall j, (j < i)%nat -> nth_error (map Phone.value ps) j <> Some v.
Proof.
  revert i; induction ps as [|p ps IH]; intros i; simpl.
  - split; [discriminate|]. intros [H _]. destruct i; discriminate.
  - unfold has_value at 1. destruct (str_eqb (Phone.value p) v) eqn:E.
    + apply str_eqb_eq in E. split.
      * intros H; injection H as <-. split; [simpl; congruence|]. intros j Hj; lia.
      * intros [_ Hmin]. destruct i as [|i]; [reflexivity|].
        exfalso. apply (Hmin O); [lia | simpl; congruence].
    + apply str_eqb_neq in E. destruct (first_index v ps) as [k|]; simpl.
      * split.
        -- intros H; injection H as <-.
           destruct (proj1 (IH k) eq_refl) as [Hk Hmin].
           split; [exact Hk|]. intros [|j] Hj; simpl; [congruence|].
           apply Hmin. lia.
        -- intros [Hi Hmin]. destruct i as [|i]; simpl in Hi; [congruence|].
           assert (Hk : Some k = Some i).
           { apply IH. split; [exact Hi|].
             intros j Hj. apply (Hmin (S j)). lia. }
           congruence.
      * split; [discriminate|]. intros [Hi Hmin].
        destruct i as [|i]; simpl in Hi; [congruence|].
        assert (Hk : None = Some i).
        { apply IH. split; [exact Hi|]. intros j Hj. apply (Hmin (S j)). lia. }
        discriminate.
Qed.

Lemma first_index_None (v : pystr) (ps : list Phone.t) :
  first_index v ps = None <-> ~ In v (map Phone.value ps).
Proof.
  split; [|apply first_index_none].
  induction ps as [|p ps IH]; simpl; [tauto|].
  unfold has_value at 1. destruct (str_eqb (Phone.value p) v) eqn:E; [discriminate|].
  apply str_eqb_neq in E.
  destruct (first_index v ps); [discriminate|]. intros _ [H | H]; [contradiction|].
  exact (IH eq_refl H).
Qed.

(** X1: [find_phone] returns the position of the first phone holding the
    value, and nothing exactly when no phone holds it. *)
Theorem find_phone_first_position (phone_number : pystr) (self : ContactRecord.t) :
  (forall i,
     find_phone phone_number self = Some i <->
     nth_error (phone_values self) i = Some phone_number /\
     forall j, (j < i)%nat -> nth_error (phone_values self) j <> Some phone_number) /\
  (find_phone phone_number self = None <-> ~ In phone_number (phone_values self)).
Proof.
  unfold find_phone, phone_values. split.
  - intros i. apply first_index_Some.
  - apply first_index_None.
Qed.

Lemma split_first (v : pystr) (l : list pystr) :
  In v l -> exists before after, l = before ++ v :: after /\ ~ In v before.
Proof.
  induction l as [|x l IH]; intros H; [destruct H|].
  destruct (str_eqb x v) eqn:E.
  - apply str_eqb_eq in E; subst x. exists [], l. auto.
  - apply str_eqb_neq in E. destruct H as [H | H]; [contradiction|].
    destruct (IH H) as (b & a & -> & Hb). exists (x :: b), a.
    split; [reflexivity|]. intros [Hx | Hx]; [contradiction | exact (Hb Hx)].
Qed.

Lemma remove_at_app (A B : list Phone.t) (p : Phone.t) :
  remove_at (length A) (A ++ p :: B) = A ++ B.
Proof. induction A as [|a A IH]; simpl; [reflexivity | rewrite IH; reflexivity]. Qed.

(** X2: [remove_phone] on a value the record does not hold raises
    PhoneNotFound and changes nothing; otherwise it takes out the first
    phone holding the value and leaves the others in their order. *)
Theorem remove_phone_first_occurrence (phone_number : pystr) (self : ContactRecord.t) :
  (~ In phone_number (phone_values self) ->
     remove_phone phone_number self = (Raise (PhoneNotFound phone_number), self)) /\
  (forall before after,
     phone_values self = before ++ phone_number :: after ->
     ~ In phone_number before ->
     exists self',
       remove_phone phone_number self = (Ok tt, self') /\
       phone_values self' = before ++ after /\
       name self' = name self /\ birthday self' = birthday self).
Proof.
  unfold remove_phone, find_phone. split.
  - intros H. rewrite first_index_none by exact H. reflexivity.
  - intros before after Hs Hb.
    destruct (phone_values_split self before after phone_number Hs)
      as (A & p & B & HP & HA & Hp & HB).
    rewrite HP, first_index_app, remove_at_app by (rewrite ?HA; assumption).
    eexists; split; [reflexivity|].
    unfold phone_values; simpl. rewrite map_app, HA, HB. auto.
Qed.

Lemma remove_phone_first_occurrence_witness :
  exists self',
    remove_phone (lit "1111111111") two_phones = (Ok tt, self') /\
    phone_values self' = [] ++ [lit "2222222222"] /\
    name self' = name two_phones /\ birthday self' = birthday two_phones.
Proof.
  apply (proj2 (remove_phone_first_occurrence (lit "1111111111") two_phones)
           [] [lit "2222222222"]).
  - vm_compute; reflexivity.
  - intros [].
Defined.

(** ** Record: what the phone operations keep *)

(** What [edit_phone] leaves behind, whether it returned or raised. *)
Lemma edit_phone_values (old_phone new_phone : pystr) (self : ContactRecord.t) :
  let self' := snd (edit_phone old_phone new_phone self) in
  name self' = name self /\ birthday self' = birthday self /\
  (phone_values self' = phone_values self \/
   exists before after,
     phone_values self = before ++ old_phone :: after /\
     ~ In old_phone before /\
     ten_decimal_digits new_phone = true /\
     fst (edit_phone old_phone new_phone self) = Ok tt /\
     phone_values self' = before ++ new_phone :: after).
Proof.
  cbv zeta. unfold edit_phone, find_phone.
  destruct (first_index old_phone (phones self)) as [i|] eqn:F; [|simpl; auto].
  assert (Hin : In old_phone (phone_values self)).
  { destruct (in_dec (list_eq_dec Z.eq_dec) old_phone (phone_values self)) as [H | H];
      [exact H|]. apply first_index_none in H. congruence. }
  destruct (split_first _ _ Hin) as (before & after & Hs & Hb).
  destruct (phone_values_split self before after old_phone Hs)
    as (A & p & B & HP & HA & Hp & HB).
  rewrite HP in F. rewrite first_index_app in F by (rewrite ?HA; assumption).
  injection F as <-. rewrite HP, at_index_app.
  unfold Phone.set_phone, Phone._validate. rewrite fullmatch_d10_spec.
  destruct (ten_decimal_digits new_phone) eqn:T; simpl.
  - split; [reflexivity|]. split; [reflexivity|]. right.
    exists before, after. repeat (split; [assumption || reflexivity|]).
    unfold phone_values; simpl. rewrite map_app; simpl. rewrite HA, HB. reflexivity.
  - split; [reflexivity|]. split; [reflexivity|]. left.
    unfold phone_values; simpl. rewrite <- HP. reflexivity.
Qed.

Lemma add_phone_values (phone_number : pystr) (self : ContactRecord.t) :
  let self' := snd (add_phone phone_number self) in
  name self' = name self /\ birthday self' = birthday self /\
  (phone_values self' = phone_values self \/
   (ten_decimal_digits phone_number = true /\
    ~ In phone_number (phone_values self) /\
    phone_values self' = phone_values self ++ [phone_number])).
Proof.
  cbv zeta. unfold add_phone.
  destruct (existsb (has_value phone_number) (phones self)) eqn:E; [simpl; auto|].
  rewrite Phone_init_eq.
  destruct (ten_decimal_digits phone_number) eqn:T; simpl; [|auto].
  split; [reflexivity|]. split; [reflexivity|]. right.
  split; [reflexivity|]. split.
  - intros H. apply existsb_has_value in H. unfold phone_values in *. congruence.
  - apply phone_values_snoc.
Qed.

Lemma remove_phone_values (phone_number : pystr) (self : ContactRecord.t) :
  let self' := snd (remove_phone phone_number self) in
  name self' = name self /\ birthday self' = birthday self /\
  incl (phone_values self') (phone_values self) /\
  (NoDup (phone_values self) -> NoDup (phone_values self')).
Proof.
  cbv zeta. unfold remove_phone.
  destruct (find_phone phone_number self) as [i|]; simpl.
  - split; [reflexivity|]. split; [reflexivity|].
    unfold phone_values; simpl. apply remove_at_values.
  - split; [reflexivity|]. split; [reflexivity|]. split; [apply incl_refl | auto].
Qed.

Lemma apply_phone_op_valid (self : ContactRecord.t) (op : phone_op) :
  valid_phones self -> valid_phones (apply_phone_op self op).
Proof.
  unfold valid_phones. intros V. destruct op as [p | old new | p]; simpl.
  - destruct (add_phone_values p self) as (_ & _ & [-> | (T & _ & ->)]);
      [exact V|]. apply Forall_app. split; [exact V|]. constructor; [exact T | constructor].
  - destruct (edit_phone_values old new self)
      as (_ & _ & [-> | (b & a & Hs & _ & T & _ & ->)]); [exact V|].
    rewrite Hs in V. apply Forall_app in V as [Vb Va].
    apply Forall_app. split; [exact Vb|].
    inversion Va; subst. constructor; assumption.
  - destruct (remove_phone_values p self) as (_ & _ & Hi & _).
    rewrite Forall_forall in *. intros x Hx. apply V, Hi, Hx.
Qed.

(** X3: whatever phones are added, edited and removed on a record made
    by [Record(name)], in whatever order and with whatever arguments,
    every phone the record holds is ten decimal digits, and the name is
    the one the record was made with. *)
Theorem phone_ops_keep_phones_valid (record_name : pystr) (ops : list phone_op) :
  valid_phones (run_phone_ops ops (ContactRecord.init record_name)) /\
  name (run_phone_ops ops (ContactRecord.init record_name)) = Name.init record_name.
Proof.
  unfold run_phone_ops.
  assert (G : forall r, valid_phones r ->
            valid_phones (fold_left apply_phone_op ops r) /\
            name (fold_left apply_phone_op ops r) = name r).
  { induction ops as [|op ops IH]; intros r V; simpl; [auto|].
    destruct (IH (apply_phone_op r op) (apply_phone_op_valid r op V)) as [H1 H2].
    split; [exact H1|]. rewrite H2.
    destruct op as [p | old new | p]; simpl.
    - apply add_phone_values.
    - apply edit_phone_values.
    - apply remove_phone_values. }
  apply G. constructor.
Qed.

Lemma apply_phone_op_NoDup (self : ContactRecord.t) (op : phone_op) :
  is_edit op = false ->
  NoDup (phone_values self) -> NoDup (phone_values (apply_phone_op self op)).
Proof.
  destruct op as [p | old new | p]; simpl; intros E H; try discriminate.
  - apply add_phone_keeps_NoDup, H.
  - apply remove_phone_keeps_NoDup, H.
Qed.

(** X4: as long as no phone is edited, no two phones of a record hold
    the same value: [add_phone] and [remove_phone] keep the phones
    distinct. *)
Theorem add_remove_keep_phones_distinct (ops : list phone_op) (self : ContactRecord.t) :
  forallb (fun op => negb (is_edit op)) ops = true ->
  NoDup (phone_values self) ->
  NoDup (phone_values (run_phone_ops ops self)).
Proof.
  unfold run_phone_ops. revert self.
  induction ops as [|op ops IH]; intros self E H; simpl; [exact H|].
  simpl in E. apply andb_true_iff in E as [E1 E2].
  apply IH; [exact E2|]. apply apply_phone_op_NoDup; [|exact H].
  destruct (is_edit op); [discriminate | reflexivity].
Qed.

Lemma add_remove_keep_phones_distinct_witness :
  NoDup (phone_values
           (run_phone_ops [AddPhone (lit "3333333333"); RemovePhone (lit "1111111111");
                           AddPhone (lit "2222222222")] two_phones)).
Proof.
  apply add_remove_keep_phones_distinct.
  - reflexivity.
  - unfold two_phones. apply add_phone_keeps_NoDup, add_phone_keeps_NoDup. constructor.
Defined.

(** X5: on a record with distinct phones, an [edit_phone] that returns
    leaves the phones distinct exactly when the new value is the old one
    or a value the record did not hold. *)
Theorem edit_phone_distinct_iff (old_phone new_phone : pystr)
    (self self' : ContactRecord.t) :
  NoDup (phone_values self) ->
  edit_phone old_phone new_phone self = (Ok tt, self') ->
  (NoDup (phone_values self') <->
   new_phone = old_phone \/ ~ In new_phone (phone_values self)).
Proof.
  intros H E.
  destruct (edit_phone_values old_phone new_phone self) as (_ & _ & Hv).
  rewrite E in Hv. simpl in Hv.
  assert (Hin : In old_phone (phone_values self)).
  { destruct (in_dec (list_eq_dec Z.eq_dec) old_phone (phone_values self)) as [Hi | Hi];
      [exact Hi|].
    unfold edit_phone, find_phone in E. rewrite first_index_none in E by exact Hi.
    discriminate. }
  assert (Hs : exists before after,
             phone_values self = before ++ old_phone :: after /\
             phone_values self' = before ++ new_phone :: after).
  { destruct Hv as [Hv | (b & a & Hs & _ & _ & _ & Hv)]; [|eauto].
    (* the list is as it was: the new value was put where the same value stood *)
    unfold edit_phone, find_phone in E.
    destruct (split_first _ _ Hin) as (b & a & Hs & Hb).
    destruct (phone_values_split self b a old_phone Hs)
      as (A & p & B & HP & HA & Hp & HB).
    rewrite HP, first_index_app, at_index_app in E by (rewrite ?HA; assumption).
    unfold Phone.set_phone, Phone._validate in E. rewrite fullmatch_d10_spec in E.
    destruct (ten_decimal_digits new_phone); simpl in E; [|discriminate].
    injection E as <-. exists b, a. split; [exact Hs|].
    unfold phone_values; simpl. rewrite map_app; simpl. rewrite HA, HB. reflexivity. }
  destruct Hs as (b & a & Hs & Hs'). rewrite Hs', Hs in *.
  pose proof (NoDup_remove _ _ _ H) as [Hba Hold].
  split.
  - intros N. apply NoDup_remove in N as [_ Hnew].
    destruct (list_eq_dec Z.eq_dec new_phone old_phone) as [-> | Hne]; [left; reflexivity|].
    right. intros Hi. apply in_elt_inv in Hi as [Hi | Hi]; [congruence | contradiction].
  - intros [-> | Hn]; [exact H|].
    apply (Permutation_NoDup (Permutation_middle b a new_phone)).
    constructor; [|exact Hba].
    intros Hi. apply Hn. apply in_app_or in Hi. apply in_or_app.
    destruct Hi; [left | right; right]; assumption.
Qed.

Lemma edit_phone_distinct_iff_witness :
  NoDup (phone_values (snd (edit_phone (lit "1111111111") (lit "3333333333") two_phones))) <->
  lit "3333333333" = lit "1111111111" \/ ~ In (lit "3333333333") (phone_values two_phones).
Proof.
  apply (edit_phone_distinct_iff (lit "1111111111") (lit "3333333333") two_phones).
  - unfold two_phones. apply add_phone_keeps_NoDup, add_phone_keeps_NoDup. constructor.
  - vm_compute; reflexivity.
Defined.

(* ================================================================== *)
(** ** AddressBook: entries *)

Lemma keys_setitem {V} (key : pystr) (v : V) (d : list (pystr * V)) :
  (In key (map fst d) -> map fst (setitem key v d) = map fst d) /\
  (~ In key (map fst d) -> map fst (setitem key v d) = map fst d ++ [key]).
Proof.
  induction d as [|[k w] d [IH1 IH2]]; simpl.
  - split; [intros [] | reflexivity].
  - destruct (str_eqb k key) eqn:E; simpl.
    + apply str_eqb_eq in E; subst k. split; [reflexivity | tauto].
    + apply str_eqb_neq in E. split.
      * intros [H | H]; [contradiction|]. rewrite IH1 by exact H. reflexivity.
      * intros H. rewrite IH2 by tauto. reflexivity.
Qed.

Lemma In_setitem {V} (key : pystr) (v : V) (d : list (pystr * V)) (k : pystr) (w : V) :
  In (k, w) (setitem key v d) -> (k = key /\ w = v) \/ In (k, w) d.
Proof.
  induction d as [|[k0 w0] d IH]; simpl.
  - intros [H | []]. injection H as <- <-. auto.
  - destruct (str_eqb k0 key) eqn:E.
    + apply str_eqb_eq in E; subst k0. intros [H | H].
      * injection H as <- <-. auto.
      * auto.
    + intros [H | H]; [auto|]. destruct (IH H); auto.
Qed.

Lemma get_None {V} (key : pystr) (d : list (pystr * V)) :
  get key d = None <-> ~ In key (map fst d).
Proof.
  induction d as [|[k w] d IH]; simpl; [tauto|].
  destruct (str_eqb k key) eqn:E.
  - apply str_eqb_eq in E. split; [discriminate | tauto].
  - apply str_eqb_neq in E. rewrite IH. tauto.
Qed.

Lemma get_In {V} (key : pystr) (d : list (pystr * V)) (v : V) :
  get key d = Some v -> In (key, v) d.
Proof.
  induction d as [|[k w] d IH]; simpl; [discriminate|].
  destruct (str_eqb k key) eqn:E.
  - apply str_eqb_eq in E; subst k. intros H; injection H as <-. auto.
  - auto.
Qed.

Lemma get_delitem_other {V} (key k : pystr) (d : list (pystr * V)) :
  k <> key -> get k (delitem key d) = get k d.
Proof.
  intros Hne. induction d as [|[k0 w] d IH]; simpl; [reflexivity|].
  destruct (str_eqb k0 key) eqn:E; simpl.
  - apply str_eqb_eq in E; subst k0.
    replace (str_eqb key k) with false; [reflexivity|].
    symmetry. apply str_eqb_neq. congruence.
  - rewrite IH. reflexivity.
Qed.

Lemma delitem_keys {V} (key : pystr) (d : list (pystr * V)) :
  incl (delitem key d) d /\
  (NoDup (map fst d) ->
   NoDup (map fst (delitem key d)) /\ ~ In key (map fst (delitem key d))).
Proof.
  induction d as [|[k w] d [IHi IHn]]; simpl.
  - split; [apply incl_refl|]. intros _. split; [constructor | tauto].
  - destruct (str_eqb k key) eqn:E; simpl.
    + apply str_eqb_eq in E; subst k. split; [apply incl_tl, incl_refl|].
      intros N. inversion N; subst. auto.
    + apply str_eqb_neq in E. split.
      * intros x [<- | Hx]; [left; reflexivity | right; apply IHi, Hx].
      * intros N. inversion N as [|? ? Hk Hd]; subst.
        destruct (IHn Hd) as [N' Hkey]. split.
        -- constructor; [|exact N']. intros Hin. apply Hk.
           apply in_map_iff in Hin as ([k' w'] & <- & Hin).
           apply in_map_iff. exists (k', w'). split; [reflexivity | apply IHi, Hin].
        -- intros [H | H]; [contradiction | exact (Hkey H)].
Qed.

(** X6: after [add_record], [find] under the record's name returns that
    record, and [find] under every other name returns what it returned
    before. *)
Theorem find_after_add_record (record : ContactRecord.t) (book : AddressBook.t) :
  find (record_name record) (add_record record book) = Some record /\
  forall name, name <> record_name record ->
    find name (add_record record book) = find name book.
Proof.
  unfold find, add_record, record_name. split.
  - rewrite get_setitem, str_eqb_refl. reflexivity.
  - intros name Hne. rewrite get_setitem.
    replace (str_eqb _ name) with false; [reflexivity|].
    symmetry. apply str_eqb_neq. congruence.
Qed.

(** X7: [add_record] under a name the book has an entry for puts the
    record in the place of that entry: the entries ahead of it and
    behind it stay, the old record is gone, and the names keep their
    order.  Under a new name it adds one entry at the end. *)
Theorem add_record_overwrites_in_place (record : ContactRecord.t) (book : AddressBook.t) :
  (forall before old after,
     book = before ++ (record_name record, old) :: after ->
     ~ In (record_name record) (keys before) ->
     add_record record book = before ++ (record_name record, record) :: after /\
     keys (add_record record book) = keys book) /\
  (~ In (record_name record) (keys book) ->
     add_record record book = book ++ [(record_name record, record)]).
Proof.
  unfold add_record, keys, record_name. split.
  - intros before old after -> Hb.
    assert (E : setitem (Name.value (name record)) record
                  (before ++ (Name.value (name record), old) :: after)
                = before ++ (Name.value (name record), record) :: after).
    { induction before as [|[k w] before IH]; simpl.
      - rewrite str_eqb_refl. reflexivity.
      - simpl in Hb. destruct (str_eqb k _) eqn:E.
        + apply str_eqb_eq in E. tauto.
        + rewrite IH by tauto. reflexivity. }
    rewrite E. split; [reflexivity|]. rewrite !map_app. reflexivity.
  - intros H. induction book as [|[k w] book IH]; simpl; [reflexivity|].
    simpl in H. destruct (str_eqb k _) eqn:E.
    + apply str_eqb_eq in E. tauto.
    + rewrite IH by tauto. reflexivity.
Qed.

Lemma add_record_overwrites_in_place_witness :
  add_record (contact (lit "Al") (lit "02.02.2002")) book_of_four
  = [(lit "Cy", contact (lit "Cy") (lit "12.06.2000"))]
    ++ (record_name (contact (lit "Al") (lit "02.02.2002")),
        contact (lit "Al") (lit "02.02.2002"))
    :: [(lit "Zed", contact (lit "Zed") (lit "15.06.2000"));
        (lit "Bob", contact (lit "Bob") (lit "16.06.1990"))] /\
  keys (add_record (contact (lit "Al") (lit "02.02.2002")) book_of_four)
  = keys book_of_four.
Proof.
  apply (proj1 (add_record_overwrites_in_place
                  (contact (lit "Al") (lit "02.02.2002")) book_of_four)
           [(lit "Cy", contact (lit "Cy") (lit "12.06.2000"))]
           (contact (lit "Al") (lit "01.01.2000"))).
  - vm_compute; reflexivity.
  - vm_compute. intuition discriminate.
Defined.

(** X8: [delete] of a name without entry raises KeyError and leaves the
    book as it was.  In a book where no name has two entries, [delete]
    of a name with an entry returns, [find] under that name then finds
    nothing, and every other name is found as before. *)
Theorem delete_removes_entry (name : pystr) (book : AddressBook.t) :
  (~ In name (keys book) -> delete name book = (Raise KeyError, book)) /\
  (In name (keys book) -> NoDup (keys book) ->
     exists book',
       delete name book = (Ok tt, book') /\
       find name book' = None /\
       (forall other, other <> name -> find other book' = find other book) /\
       NoDup (keys book')).
Proof.
  unfold delete, find, keys. split.
  - intros H. apply get_None in H. rewrite H. reflexivity.
  - intros Hin N. destruct (get name book) as [r|] eqn:G.
    + eexists; split; [reflexivity|].
      destruct (delitem_keys name book) as [_ Hd]. destruct (Hd N) as [N' Hk].
      split; [apply get_None, Hk|]. split; [|exact N'].
      intros other Hne. apply get_delitem_other, Hne.
    + apply get_None in G. contradiction.
Qed.

Lemma delete_removes_entry_witness :
  exists book',
    delete (lit "Ann") (book_of (lit "Ann") (lit "15.06.2024")) = (Ok tt, book') /\
    find (lit "Ann") book' = None /\
    (forall other, other <> lit "Ann" ->
       find other book' = find other (book_of (lit "Ann") (lit "15.06.2024"))) /\
    NoDup (keys book').
Proof.
  apply (proj2 (delete_removes_entry (lit "Ann") (book_of (lit "Ann") (lit "15.06.2024")))).
  - left. vm_compute; reflexivity.
  - vm_compute. constructor; [intros [] | constructor].
Defined.

Lemma add_record_well_keyed (record : ContactRecord.t) (book : AddressBook.t) :
  well_keyed book -> well_keyed (add_record record book).
Proof.
  intros [N K]. unfold well_keyed, keys, add_record in *. split.
  - destruct (in_dec (list_eq_dec Z.eq_dec)
                (Name.value (name record)) (map fst book)) as [H | H].
    + rewrite (proj1 (keys_setitem _ record book) H). exact N.
    + rewrite (proj2 (keys_setitem _ record book) H).
      apply NoDup_app; [exact N | repeat constructor; simpl; tauto |].
      intros x Hx [<- | []]. exact (H Hx).
  - intros k r H. apply In_setitem in H as [[-> ->] | H]; [reflexivity|].
    apply K, H.
Qed.

Lemma delete_well_keyed (name : pystr) (book : AddressBook.t) :
  well_keyed book -> well_keyed (snd (delete name book)).
Proof.
  intros [N K]. unfold delete. destruct (get name book); simpl; [|split; assumption].
  destruct (delitem_keys name book) as [Hi Hn]. split.
  - apply Hn, N.
  - intros k r H. apply K, Hi, H.
Qed.

(** X9: in every book built from the empty one by [add_record] and
    [delete], no name has two entries and every record is stored under
    its own name, so [find(name)] returns a record of that name or
    nothing. *)
Theorem book_ops_keep_well_keyed (ops : list book_op) :
  well_keyed (run_book_ops ops AddressBook.empty) /\
  forall name record,
    find name (run_book_ops ops AddressBook.empty) = Some record ->
    record_name record = name.
Proof.
  assert (G : forall book, well_keyed book -> well_keyed (run_book_ops ops book)).
  { unfold run_book_ops. induction ops as [|op ops IH]; intros book W; simpl; [exact W|].
    apply IH. destruct op as [r | n]; simpl.
    - apply add_record_well_keyed, W.
    - apply delete_well_keyed, W. }
  assert (W : well_keyed (run_book_ops ops AddressBook.empty)).
  { apply G. split; [constructor | intros k r []]. }
  split; [exact W|]. intros name record H.
  apply (proj2 W). apply get_In, H.
Qed.

(* ================================================================== *)
(** ** Upcoming birthdays: what the result holds *)

Lemma listed_day_workday (today : date) (r : ContactRecord.t) (day : pystr) :
  listed_day today r = Some day -> In day workdays.
Proof.
  unfold listed_day.
  destruct (ContactRecord.birthday r) as [b|]; [|discriminate].
  destruct (next_occurrence today (Birthday.value b)) as [[occ delta]|] eqn:N;
    [|discriminate].
  destruct ((0 <=? delta) && (delta <=? 7)); [|discriminate].
  pose proof (next_occurrence_valid _ _ _ _ N) as V.
  destruct (shift_weekend occ) as [shifted|] eqn:S; [|discriminate].
  intros E; injection E as <-.
  assert (W : 0 <= weekday shifted < 5).
  { pose proof (weekday_range occ) as R.
    destruct (Z_lt_le_dec (weekday occ) 5) as [H | H].
    - rewrite (shift_weekend_weekday occ H) in S. injection S as <-. lia.
    - destruct (shift_weekend_weekend occ V H) as (s' & Es & _ & _ & Hm).
      rewrite Es in S. injection S as <-. lia. }
  assert (C : weekday shifted = 0 \/ weekday shifted = 1 \/ weekday shifted = 2 \/
              weekday shifted = 3 \/ weekday shifted = 4) by lia.
  destruct C as [C | [C | [C | [C | C]]]]; rewrite C; vm_compute; tauto.
Qed.

(** X10: a Saturday or a Sunday never heads a group of the result: every
    group is filed under one of Monday to Friday. *)
Theorem upcoming_groups_on_workdays (today : date) (book : AddressBook.t) (out : pystr) :
  get_upcoming_birthdays today book = Ok out ->
  out = match upcoming_spec today (values book) with
        | [] => NO_UPCOMING
        | gs => join [10] (map format_group gs)
        end /\
  forall day names,
    In (day, names) (upcoming_spec today (values book)) ->
    In day workdays /\ day <> lit "Saturday" /\ day <> lit "Sunday".
Proof.
  intros H. split; [apply get_upcoming_birthdays_Ok, H|].
  intros day names Hg.
  assert (W : In day workdays).
  { unfold upcoming_spec in Hg. apply in_flat_map in Hg as (day' & _ & Hg).
    destruct (bucket today day' (values book)) as [|n ns] eqn:B; [destruct Hg|].
    destruct Hg as [Hg | []]. injection Hg as <- _.
    assert (Hn : In n (bucket today day' (values book))) by (rewrite B; left; reflexivity).
    unfold bucket in Hn. apply in_map_iff in Hn as (r & _ & Hr).
    apply filter_In in Hr as [_ Hk].
    destruct (listed_day today r) as [k|] eqn:L; [|discriminate].
    apply str_eqb_eq in Hk; subst k. eapply listed_day_workday, L. }
  split; [exact W|].
  split; intros ->; vm_compute in W; repeat (destruct W as [W | W]; [discriminate W|]);
    exact W.
Qed.

Lemma upcoming_groups_on_workdays_witness :
  In (lit "Monday") workdays /\
  lit "Monday" <> lit "Saturday" /\ lit "Monday" <> lit "Sunday".
Proof.
  apply (proj2 (upcoming_groups_on_workdays monday_2024_06_10
                  (book_of (lit "Ann") (lit "15.06.2024")) (lit "Monday: Ann")
                  ltac:(vm_compute; reflexivity))
           (lit "Monday") [lit "Ann"]).
  vm_compute. left; reflexivity.
Defined.

Lemma flat_map_app_perm {A B} (f g : A -> list B) (l : list A) :
  Permutation (flat_map (fun x => f x ++ g x) l) (flat_map f l ++ flat_map g l).
Proof.
  induction l as [|x l IH]; simpl; [reflexivity|].
  rewrite IH, <- !app_assoc. apply Permutation_app_head.
  rewrite !app_assoc. apply Permutation_app_tail. apply Permutation_app_comm.
Qed.

Lemma flat_map_single (k x : pystr) (days : list pystr) :
  NoDup days -> In k days ->
  flat_map (fun d => if str_eqb k d then [x] else []) days = [x].
Proof.
  induction days as [|d days IH]; intros N H; [destruct H|].
  inversion N as [|? ? Hd Nd]; subst. simpl.
  destruct (str_eqb k d) eqn:E.
  - apply str_eqb_eq in E; subst d. simpl. f_equal.
    clear IH N Nd H. induction days as [|d days IH]; [reflexivity|].
    simpl. replace (str_eqb k d) with false.
    + apply IH. intros H. apply Hd. right; exact H.
    + symmetry. apply str_eqb_neq. intros ->. apply Hd. left; reflexivity.
  - apply str_eqb_neq in E. destruct H as [H | H]; [congruence|].
    apply IH; assumption.
Qed.

Lemma flat_map_nil {A B} (l : list A) : flat_map (fun _ : A => @nil B) l = [].
Proof. induction l; simpl; auto. Qed.

Lemma day_name_NoDup : NoDup day_name.
Proof.
  unfold day_name.
  repeat (constructor; [simpl; intuition discriminate|]). constructor.
Qed.

Lemma buckets_perm (today : date) (rs : list ContactRecord.t) :
  Permutation (flat_map (fun day => bucket today day rs) day_name)
              (map record_name (filter (is_listed today) rs)).
Proof.
  induction rs as [|r rs IH].
  - replace (flat_map (fun day => bucket today day []) day_name) with (@nil pystr);
      [reflexivity|].
    symmetry. exact (flat_map_nil day_name).
  - assert (E : flat_map (fun day => bucket today day (r :: rs)) day_name
              = flat_map (fun day =>
                  (match listed_day today r with
                   | Some k => if str_eqb k day then [record_name r] else []
                   | None => []
                   end) ++ bucket today day rs) day_name).
    { apply flat_map_ext. intros day. rewrite bucket_cons.
      destruct (listed_day today r) as [k|]; [|reflexivity].
      destruct (str_eqb k day); reflexivity. }
    rewrite E, flat_map_app_perm, IH. cbn [filter].
    destruct (listed_day today r) as [k|] eqn:L.
    + replace (is_listed today r) with true by (unfold is_listed; rewrite L; reflexivity).
      rewrite (flat_map_single k (record_name r) day_name day_name_NoDup
                 (listed_day_In _ _ _ L)).
      reflexivity.
    + replace (is_listed today r) with false by (unfold is_listed; rewrite L; reflexivity).
      rewrite flat_map_nil. reflexivity.
Qed.

Lemma groups_names_perm (today : date) (rs : list ContactRecord.t) (days : list pystr) :
  Permutation
    (concat (map snd (flat_map (fun day =>
       match bucket today day rs with
       | [] => []
       | names => [(day, sorted names)]
       end) days)))
    (flat_map (fun day => bucket today day rs) days).
Proof.
  induction days as [|day days IH]; [reflexivity|].
  cbn [flat_map]. rewrite map_app, concat_app, IH.
  apply Permutation_app_tail.
  destruct (bucket today day rs) as [|n ns]; [reflexivity|].
  cbn [map concat snd]. rewrite app_nil_r. apply sorted_perm.
Qed.

(** X11: the names in the groups of the result are the names of the
    records the loop lists, each as often as it is listed: no listed
    contact is lost in the grouping and none is written twice. *)
Theorem upcoming_names_each_once (today : date) (book : AddressBook.t) (out : pystr) :
  get_upcoming_birthdays today book = Ok out ->
  out = match upcoming_spec today (values book) with
        | [] => NO_UPCOMING
        | gs => join [10] (map format_group gs)
        end /\
  Permutation (concat (map snd (upcoming_spec today (values book))))
              (map record_name (filter (is_listed today) (values book))).
Proof.
  intros H. split; [apply get_upcoming_birthdays_Ok, H|].
  unfold upcoming_spec. rewrite groups_names_perm. apply buckets_perm.
Qed.

Lemma upcoming_names_each_once_witness :
  Permutation
    (concat (map snd (upcoming_spec monday_2024_06_10
                        (values (book_of (lit "Ann") (lit "15.06.2024"))))))
    (map record_name (filter (is_listed monday_2024_06_10)
                        (values (book_of (lit "Ann") (lit "15.06.2024"))))).
Proof.
  exact (proj2 (upcoming_names_each_once monday_2024_06_10
                  (book_of (lit "Ann") (lit "15.06.2024")) (lit "Monday: Ann")
                  ltac:(vm_compute; reflexivity))).
Defined.

(** X12: [get_upcoming_birthdays] returns a text whenever the year of
    [today] is before 9999 and no birthday of the book is a 29 February;
    the text is the fixed sentence exactly when the loop lists no record. *)
Theorem upcoming_birthdays_returns_text (today : date) (book : AddressBook.t) :
  MINYEAR <= year today < MAXYEAR ->
  (forall r b, In r (values book) -> ContactRecord.birthday r = Some b ->
     valid (Birthday.value b) /\
     ~ (month (Birthday.value b) = 2 /\ day (Birthday.value b) = 29)) ->
  exists out,
    get_upcoming_birthdays today book = Ok out /\
    ((forall r, In r (values book) -> listed_day today r = None) <->
     upcoming_spec today (values book) = []) /\
    out = match upcoming_spec today (values book) with
          | [] => NO_UPCOMING
          | gs => join [10] (map format_group gs)
          end.
Proof.
  intros Hy Hb.
  destruct (get_upcoming_birthdays_returns today book Hy Hb) as [out H].
  exists out. split; [exact H|]. split.
  - symmetry. apply upcoming_spec_nil.
  - apply get_upcoming_birthdays_Ok, H.
Qed.

Lemma upcoming_birthdays_returns_text_witness :
  exists out,
    get_upcoming_birthdays monday_2024_06_10 (book_of (lit "Ann") (lit "15.06.2024"))
      = Ok out /\
    ((forall r, In r (values (book_of (lit "Ann") (lit "15.06.2024"))) ->
        listed_day monday_2024_06_10 r = None) <->
     upcoming_spec monday_2024_06_10 (values (book_of (lit "Ann") (lit "15.06.2024"))) = []) /\
    out = match upcoming_spec monday_2024_06_10
                  (values (book_of (lit "Ann") (lit "15.06.2024"))) with
          | [] => NO_UPCOMING
          | gs => join [10] (map format_group gs)
          end.
Proof.
  apply upcoming_birthdays_returns_text.
  - vm_compute. split; [discriminate | reflexivity].
  - intros r b [<- | []] Hb. vm_compute in Hb. injection Hb as <-.
    split.
    + vm_compute. repeat split; discriminate.
    + intros [H _]. vm_compute in H. discriminate.
Defined.

(* ================================================================== *)
(** ** The decorator: which texts contain which *)

Import Handlers.

Lemma startswith_spec (p s : pystr) :
  startswith p s = true <-> exists t, s = p ++ t.
Proof.
  revert s; induction p as [|x p IH]; intros s; simpl.
  - split; [eauto | reflexivity].
  - destruct s as [|y s].
    + split; [discriminate | intros (t & E); discriminate].
    + rewrite andb_true_iff, Z.eqb_eq, IH. split.
      * intros [-> (t & ->)]. eauto.
      * intros (t & E). injection E as -> ->. eauto.
Qed.

Lemma contains_spec (needle hay : pystr) :
  contains needle hay = true <-> exists pre post, hay = pre ++ needle ++ post.
Proof.
  induction hay as [|c hay IH]; simpl.
  - rewrite orb_false_r, startswith_spec. split.
    + intros (t & E). exists [], t. exact E.
    + intros ([|x pre] & post & E); [eauto | discriminate].
  - rewrite orb_true_iff, startswith_spec, IH. split.
    + intros [(t & E) | (pre & post & ->)].
      * exists [], t. exact E.
      * exists (c :: pre), post. reflexivity.
    + intros ([|x pre] & post & E).
      * left. eauto.
      * right. injection E as -> ->. eauto.
Qed.

Lemma contains_prefix (n1 n2 hay : pystr) :
  contains (n1 ++ n2) hay = true -> contains n1 hay = true.
Proof.
  rewrite !contains_spec. intros (pre & post & ->).
  exists pre, (n2 ++ post). rewrite <- app_assoc. reflexivity.
Qed.

Lemma words_not_nil (s : pystr) : words s <> [].
Proof.
  destruct s as [|c s]; simpl; [discriminate|].
  destruct (c =? 32); [discriminate|]. destruct (words s); discriminate.
Qed.

Lemma words_app_space (x y : pystr) : words (x ++ 32 :: y) = words x ++ words y.
Proof.
  induction x as [|c x IH]; simpl; [reflexivity|].
  destruct (c =? 32); rewrite IH; [reflexivity|].
  pose proof (words_not_nil x) as N. destruct (words x); [congruence | reflexivity].
Qed.

Lemma words_nospace (s : pystr) : ~ In 32 s -> words s = [s].
Proof.
  induction s as [|c s IH]; simpl; intros H; [reflexivity|].
  replace (c =? 32) with false by (symmetry; apply Z.eqb_neq; intros ->; tauto).
  rewrite IH by tauto. reflexivity.
Qed.

(** A text without space put ahead of a text lengthens its first piece. *)
Lemma words_app_left (a s : pystr) :
  ~ In 32 a -> exists v ws, words s = v :: ws /\ words (a ++ s) = (a ++ v) :: ws.
Proof.
  intros H. pose proof (words_not_nil s) as N.
  destruct (words s) as [|v ws] eqn:E; [congruence|]. exists v, ws. split; [reflexivity|].
  induction a as [|c a IH]; simpl; [exact E|].
  replace (c =? 32) with false by (symmetry; apply Z.eqb_neq; intros ->; simpl in H; tauto).
  rewrite IH by (simpl in H; tauto). reflexivity.
Qed.

(** A text without space put behind a text lengthens its last piece. *)
Lemma words_app_right (s a : pystr) :
  ~ In 32 a -> exists ws u, words s = ws ++ [u] /\ words (s ++ a) = ws ++ [u ++ a].
Proof.
  intros H. induction s as [|c s (ws & u & E & E')]; simpl.
  - exists [], []. split; [reflexivity|]. apply words_nospace, H.
  - destruct (c =? 32).
    + exists ([] :: ws), u. rewrite E, E'. auto.
    + rewrite E, E'. destruct ws as [|w ws]; simpl.
      * exists [], (c :: u). auto.
      * exists ((c :: w) :: ws), u. auto.
Qed.

Lemma startswith_app (c v : pystr) : startswith c (c ++ v) = true.
Proof. apply startswith_spec. eauto. Qed.

Lemma endswith_app (u a : pystr) : endswith a (u ++ a) = true.
Proof. unfold endswith. rewrite rev_app_distr. apply startswith_app. Qed.

Lemma pair_hits_app (a c : pystr) (L1 L2 : list pystr) (u v : pystr) :
  endswith a u = true -> startswith c v = true ->
  pair_hits a c (L1 ++ u :: v :: L2) = true.
Proof.
  intros Hu Hv. induction L1 as [|w L1 IH]; simpl.
  - rewrite Hu, Hv. reflexivity.
  - destruct (L1 ++ u :: v :: L2) eqn:E; [destruct L1; discriminate|].
    rewrite IH. apply orb_true_r.
Qed.

(** A text that contains [a], a space and [c] has two neighbouring
    pieces, one ending with [a] and the next starting with [c]. *)
Lemma contains_pair_hits (a c hay : pystr) :
  ~ In 32 a -> ~ In 32 c ->
  contains (a ++ 32 :: c) hay = true -> pair_hits a c (words hay) = true.
Proof.
  intros Ha Hc H. apply contains_spec in H as (pre & post & ->).
  replace (pre ++ (a ++ 32 :: c) ++ post) with ((pre ++ a) ++ 32 :: (c ++ post))
    by (rewrite <- !app_assoc; reflexivity).
  rewrite words_app_space.
  destruct (words_app_right pre a Ha) as (ws & u & _ & ->).
  destruct (words_app_left c post Hc) as (v & ws' & _ & ->).
  rewrite <- app_assoc. simpl.
  apply pair_hits_app; [apply endswith_app | apply startswith_app].
Qed.

Lemma pair_hits_four (a c W1 W2 W3 W4 : pystr) :
  pair_hits a c [W1; W2; W3; W4] =
  (endswith a W1 && startswith c W2)
  || ((endswith a W2 && startswith c W3)
      || (endswith a W3 && startswith c W4)).
Proof. simpl. rewrite orb_false_r. reflexivity. Qed.

(** Decide the tests on texts that are written out. *)
Ltac decide_tests H :=
  repeat match type of H with
  | context [endswith ?a ?u] =>
      let v := eval vm_compute in (endswith a u) in
      match v with false => change (endswith a u) with false in H end
  | context [startswith ?c ?u] =>
      let v := eval vm_compute in (startswith c u) in
      match v with false => change (startswith c u) with false in H end
  end;
  rewrite ?andb_false_r, ?andb_false_l, ?orb_false_r, ?orb_false_l in H.

Lemma words_not_found (p : pystr) :
  ~ In 32 p ->
  words (lit "Phone '" ++ p ++ lit "' not found.")
  = [lit "Phone"; 39 :: p ++ [39]; lit "not"; lit "found."].
Proof.
  intros H.
  replace (lit "Phone '" ++ p ++ lit "' not found.")
    with (lit "Phone" ++ 32 :: ((39 :: p ++ [39]) ++ 32 :: (lit "not" ++ 32 :: lit "found.")))
    by (simpl; rewrite <- app_assoc; reflexivity).
  rewrite !words_app_space.
  rewrite (words_nospace (39 :: p ++ [39])).
  - reflexivity.
  - intros [E | E]; [discriminate|].
    apply in_app_or in E as [E | [E | []]]; [exact (H E) | discriminate].
Qed.

Lemma words_duplicate (p : pystr) :
  ~ In 32 p ->
  words (lit "Phone " ++ p ++ lit " already exists.")
  = [lit "Phone"; p; lit "already"; lit "exists."].
Proof.
  intros H.
  replace (lit "Phone " ++ p ++ lit " already exists.")
    with (lit "Phone" ++ 32 :: (p ++ 32 :: (lit "already" ++ 32 :: lit "exists.")))
    by reflexivity.
  rewrite !words_app_space, (words_nospace p H). reflexivity.
Qed.

(** The text the decorator gives for a phone that was not found is the
    message of the exception, when the phone is written without space. *)
Lemma input_error_not_found (p : pystr) :
  ~ In 32 p ->
  input_error (Raises (PhoneNotFound p)) = lit "Phone '" ++ p ++ lit "' not found.".
Proof.
  intros H. unfold input_error, PhoneNotFound.
  pose proof (words_not_found p H) as W.
  destruct (contains (lit "Invalid date format") _) eqn:C1.
  { exfalso. apply (contains_prefix (lit "Invalid date") (lit " format")) in C1.
    apply (contains_pair_hits (lit "Invalid") (lit "date")) in C1;
      [| vm_compute; intuition discriminate | vm_compute; intuition discriminate].
    rewrite W, pair_hits_four in C1. decide_tests C1. discriminate. }
  destruct (contains (lit "exactly 10 digits") _) eqn:C2.
  { exfalso. apply (contains_prefix (lit "exactly 10") (lit " digits")) in C2.
    apply (contains_pair_hits (lit "exactly") (lit "10")) in C2;
      [| vm_compute; intuition discriminate | vm_compute; intuition discriminate].
    rewrite W, pair_hits_four in C2. decide_tests C2. discriminate. }
  assert (C3 : contains (lit "Phone") (lit "Phone '" ++ p ++ lit "' not found.") = true).
  { apply contains_spec. exists [], (32 :: 39 :: p ++ lit "' not found."). reflexivity. }
  assert (C4 : contains (lit "not found") (lit "Phone '" ++ p ++ lit "' not found.") = true).
  { apply contains_spec. exists (lit "Phone '" ++ p ++ lit "' "), (lit ".").
    simpl. rewrite <- app_assoc. reflexivity. }
  rewrite C3, C4. reflexivity.
Qed.

(** The same for a phone that exists already. *)
Lemma input_error_duplicate (p : pystr) :
  ~ In 32 p ->
  input_error (Raises (DuplicatePhone p)) = lit "Phone " ++ p ++ lit " already exists.".
Proof.
  intros H. unfold input_error, DuplicatePhone.
  pose proof (words_duplicate p H) as W.
  destruct (contains (lit "Invalid date format") _) eqn:C1.
  { exfalso. apply (contains_prefix (lit "Invalid date") (lit " format")) in C1.
    apply (contains_pair_hits (lit "Invalid") (lit "date")) in C1;
      [| vm_compute; intuition discriminate | vm_compute; intuition discriminate].
    rewrite W, pair_hits_four in C1. decide_tests C1. discriminate. }
  destruct (contains (lit "exactly 10 digits") _) eqn:C2.
  { exfalso. apply (contains_prefix (lit "exactly 10") (lit " digits")) in C2.
    apply (contains_pair_hits (lit "exactly") (lit "10")) in C2;
      [| vm_compute; intuition discriminate | vm_compute; intuition discriminate].
    rewrite W, pair_hits_four in C2. decide_tests C2. discriminate. }
  destruct (contains (lit "not found") _) eqn:C3.
  { exfalso.
    apply (contains_pair_hits (lit "not") (lit "found")) in C3;
      [| vm_compute; intuition discriminate | vm_compute; intuition discriminate].
    rewrite W, pair_hits_four in C3. decide_tests C3. discriminate. }
  rewrite andb_false_r.
  assert (C4 : contains (lit "already exists")
                 (lit "Phone " ++ p ++ lit " already exists.") = true).
  { apply contains_spec. exists (lit "Phone " ++ p ++ lit " "), (lit ".").
    simpl. rewrite <- app_assoc. reflexivity. }
  rewrite C4. reflexivity.
Qed.

(* ================================================================== *)
(** ** The handlers *)

Lemma setitem_same {V} (key : pystr) (v : V) (d : list (pystr * V)) :
  get key d = Some v -> setitem key v d = d.
Proof.
  induction d as [|[k w] d IH]; simpl; [discriminate|].
  destruct (str_eqb k key) eqn:E.
  - intros H; injection H as ->. reflexivity.
  - intros H. rewrite IH by exact H. reflexivity.
Qed.

(** X13: a command given with the wrong number of arguments is answered
    with the request for name and phone or birthday, and the book stays
    as it was: [add] with fewer than two, [change] with other than
    three, [add-birthday] with other than two, [phone] and
    [show-birthday] with none. *)
Theorem handlers_wrong_argument_count :
  (forall args book, (length args < 2)%nat -> add_contact args book = (GIVE_ME, book)) /\
  (forall args book, length args <> 3%nat -> change_contact args book = (GIVE_ME, book)) /\
  (forall args book, length args <> 2%nat -> Handlers.add_birthday args book = (GIVE_ME, book)) /\
  (forall book, show_phone [] book = (GIVE_ME, book)) /\
  (forall platform book, show_birthday platform [] book = (GIVE_ME, book)).
Proof.
  repeat split.
  - intros [|a [|b args]] book H; simpl in H; try lia; reflexivity.
  - intros [|a [|b [|c [|d args]]]] book H; simpl in H; try lia;
      unfold change_contact, decorated, change_contact_body; cbn [fst snd];
      vm_compute; reflexivity.
  - intros [|a [|b [|c args]]] book H; simpl in H; try lia;
      unfold Handlers.add_birthday, decorated, add_birthday_body; cbn [fst snd];
      vm_compute; reflexivity.
Qed.

Lemma find_setitem_other (name other : pystr) (r : ContactRecord.t) (book : AddressBook.t) :
  other <> name -> find other (setitem name r book) = find other book.
Proof.
  intros H. unfold find. rewrite get_setitem.
  replace (str_eqb name other) with false; [reflexivity|].
  symmetry. apply str_eqb_neq. congruence.
Qed.

Lemma find_setitem_same (name : pystr) (r : ContactRecord.t) (book : AddressBook.t) :
  find name (setitem name r book) = Some r.
Proof. unfold find. rewrite get_setitem, str_eqb_refl. reflexivity. Qed.

(** X14: [add] for a name the book does not know creates the contact
    before it looks at the phone.  With a valid phone the answer is
    Contact added. and the contact holds that phone; with an invalid one
    the answer is the phone format message and the contact is in the
    book all the same, without a phone.  No other contact is touched. *)
Theorem add_contact_new_contact (name phone : pystr) (rest : list pystr)
    (book : AddressBook.t) :
  find name book = None ->
  exists book',
    add_contact (name :: phone :: rest) book
      = (if ten_decimal_digits phone then lit "Contact added." else PHONE_FORMAT, book') /\
    find name book'
      = Some (ContactRecord.mk (Name.init name)
                (if ten_decimal_digits phone then [Phone.mk phone] else []) None) /\
    forall other, other <> name -> find other book' = find other book.
Proof.
  intros H. unfold add_contact, decorated, add_contact_body. rewrite H.
  cbv zeta. unfold on_record, add_phone. cbn [existsb phones ContactRecord.init].
  rewrite Phone_init_eq.
  destruct (ten_decimal_digits phone); cbn [of_result input_error].
  - eexists. split; [reflexivity|]. split.
    + apply find_setitem_same.
    + intros other Hne. rewrite find_setitem_other by exact Hne.
      unfold add_record. apply find_setitem_other, Hne.
  - eexists. split; [reflexivity|]. split.
    + apply find_setitem_same.
    + intros other Hne. rewrite find_setitem_other by exact Hne.
      unfold add_record. apply find_setitem_other, Hne.
Qed.

Lemma add_contact_new_contact_witness :
  exists book',
    add_contact [lit "Bob"; lit "12345"] AddressBook.empty = (PHONE_FORMAT, book') /\
    find (lit "Bob") book' = Some (ContactRecord.mk (Name.init (lit "Bob")) [] None) /\
    forall other, other <> lit "Bob" -> find other book' = find other AddressBook.empty.
Proof.
  exact (add_contact_new_contact (lit "Bob") (lit "12345") [] AddressBook.empty eq_refl).
Defined.

(** X15: [add] for a contact of the book.  A phone the contact holds is
    answered with the message Phone ... already exists. and nothing
    changes; a new valid phone is appended and answered with Contact
    updated.; a new invalid phone is answered with the phone format
    message and nothing changes. *)
Theorem add_contact_known_contact (name phone : pystr) (rest : list pystr)
    (book : AddressBook.t) (record : ContactRecord.t) :
  find name book = Some record ->
  (In phone (phone_values record) -> ~ In 32 phone ->
     add_contact (name :: phone :: rest) book
       = (lit "Phone " ++ phone ++ lit " already exists.", book)) /\
  (~ In phone (phone_values record) -> ten_decimal_digits phone = true ->
     exists book',
       add_contact (name :: phone :: rest) book = (lit "Contact updated.", book') /\
       find name book'
         = Some (set_phones record (phones record ++ [Phone.mk phone])) /\
       (forall other, other <> name -> find other book' = find other book) /\
       keys book' = keys book) /\
  (~ In phone (phone_values record) -> ten_decimal_digits phone = false ->
     add_contact (name :: phone :: rest) book = (PHONE_FORMAT, book)).
Proof.
  intros H. unfold add_contact, decorated, add_contact_body. rewrite H.
  unfold on_record, add_phone. split; [|split].
  - intros Hin Hsp. apply existsb_has_value in Hin. rewrite Hin.
    cbn [of_result]. rewrite input_error_duplicate by exact Hsp.
    rewrite setitem_same by exact H. reflexivity.
  - intros Hin T.
    replace (existsb (has_value phone) (phones record)) with false.
    2:{ symmetry. destruct (existsb _ _) eqn:E; [|reflexivity].
        apply existsb_has_value in E. contradiction. }
    rewrite Phone_init_eq, T. cbn [of_result input_error].
    eexists. split; [reflexivity|]. split; [apply find_setitem_same|]. split.
    + intros other Hne. apply find_setitem_other, Hne.
    + unfold keys. apply keys_setitem. apply in_map_iff.
      exists (name, record). split; [reflexivity | apply get_In, H].
  - intros Hin T.
    replace (existsb (has_value phone) (phones record)) with false.
    2:{ symmetry. destruct (existsb _ _) eqn:E; [|reflexivity].
        apply existsb_has_value in E. contradiction. }
    rewrite Phone_init_eq, T. cbn [of_result].
    rewrite setitem_same by exact H. reflexivity.
Qed.

Lemma add_contact_known_contact_witness :
  add_contact [lit "Bob"; lit "0501234567"]
    (snd (add_contact [lit "Bob"; lit "0501234567"] AddressBook.empty))
  = (lit "Phone " ++ lit "0501234567" ++ lit " already exists.",
     snd (add_contact [lit "Bob"; lit "0501234567"] AddressBook.empty)).
Proof.
  apply (proj1 (add_contact_known_contact (lit "Bob") (lit "0501234567") []
                  (snd (add_contact [lit "Bob"; lit "0501234567"] AddressBook.empty))
                  (ContactRecord.mk (Name.init (lit "Bob")) [Phone.mk (lit "0501234567")] None)
                  ltac:(vm_compute; reflexivity))).
  - left. reflexivity.
  - vm_compute. intuition discriminate.
Defined.

(** X16: [change] for a name the book does not know is answered with
    Contact not found.; for a contact that does not hold the old phone,
    with the message Phone '...' not found.; for an invalid new phone,
    with the phone format message.  In all three cases the book stays as
    it was. *)
Theorem change_contact_failures (name old_phone new_phone : pystr) (book : AddressBook.t) :
  (find name book = None ->
     change_contact [name; old_phone; new_phone] book = (CONTACT_NOT_FOUND, book)) /\
  (forall record,
     find name book = Some record ->
     (~ In old_phone (phone_values record) -> ~ In 32 old_phone ->
        change_contact [name; old_phone; new_phone] book
          = (lit "Phone '" ++ old_phone ++ lit "' not found.", book)) /\
     (In old_phone (phone_values record) -> ten_decimal_digits new_phone = false ->
        change_contact [name; old_phone; new_phone] book = (PHONE_FORMAT, book))).
Proof.
  unfold change_contact, decorated, change_contact_body. split.
  - intros H. rewrite H. reflexivity.
  - intros record H. rewrite H. unfold on_record. split.
    + intros Hin Hsp. unfold edit_phone, find_phone.
      rewrite first_index_none by exact Hin. cbn [of_result].
      rewrite input_error_not_found by exact Hsp.
      rewrite setitem_same by exact H. reflexivity.
    + intros Hin T.
      destruct (edit_phone_values old_phone new_phone record) as (Hn & Hb & Hv).
      destruct (edit_phone old_phone new_phone record) as [r record'] eqn:E.
      cbn [fst snd] in *.
      assert (Hr : r = Raise InvalidPhoneFormat /\ record' = record).
      { unfold edit_phone, find_phone in E.
        destruct (split_first _ _ Hin) as (b & a & Hs & Hnb).
        destruct (phone_values_split record b a old_phone Hs)
          as (A & p & B & HP & HA & Hp & HB).
        rewrite HP, first_index_app, at_index_app in E by (rewrite ?HA; assumption).
        unfold Phone.set_phone, Phone._validate in E.
        rewrite fullmatch_d10_spec, T in E. simpl in E.
        injection E as <- <-. split; [reflexivity|].
        rewrite <- HP. destruct record; reflexivity. }
      destruct Hr as [-> ->]. cbn [of_result].
      rewrite setitem_same by exact H. reflexivity.
Qed.

Lemma change_contact_failures_witness :
  change_contact [lit "Bob"; lit "0000000000"; lit "1111111111"]
    (snd (add_contact [lit "Bob"; lit "0501234567"] AddressBook.empty))
  = (lit "Phone '" ++ lit "0000000000" ++ lit "' not found.",
     snd (add_contact [lit "Bob"; lit "0501234567"] AddressBook.empty)).
Proof.
  apply (proj1 (proj2 (change_contact_failures (lit "Bob") (lit "0000000000")
                         (lit "1111111111")
                         (snd (add_contact [lit "Bob"; lit "0501234567"] AddressBook.empty)))
                  (ContactRecord.mk (Name.init (lit "Bob")) [Phone.mk (lit "0501234567")] None)
                  ltac:(vm_compute; reflexivity))).
  - vm_compute. intuition discriminate.
  - vm_compute. intuition discriminate.
Defined.

(** X17: a [change] that replaces a phone the contact holds by a valid
    one is answered with Contact updated successfully., and the [phone]
    command then lists the new phone where the old one stood, the other
    phones as they were.  No other contact is touched and no entry is
    added. *)
Theorem change_contact_then_show_phone (name old_phone new_phone : pystr)
    (book : AddressBook.t) (record : ContactRecord.t) (before after : list pystr) :
  find name book = Some record ->
  phone_values record = before ++ old_phone :: after ->
  ~ In old_phone before ->
  ten_decimal_digits new_phone = true ->
  exists book',
    change_contact [name; old_phone; new_phone] book
      = (lit "Contact updated successfully.", book') /\
    show_phone [name] book'
      = (Name.value (ContactRecord.name record) ++ lit "'s phones: "
         ++ join (lit "; ") (before ++ new_phone :: after), book') /\
    (forall other, other <> name -> find other book' = find other book) /\
    keys book' = keys book.
Proof.
  intros H Hs Hb T.
  destruct (phone_values_split record before after old_phone Hs)
    as (A & p & B & HP & HA & Hp & HB).
  unfold change_contact, show_phone, decorated, change_contact_body, show_phone_body.
  rewrite H. unfold on_record, edit_phone, find_phone.
  rewrite HP, first_index_app, at_index_app by (rewrite ?HA; assumption).
  unfold Phone.set_phone, Phone._validate. rewrite fullmatch_d10_spec, T.
  cbn [negb fst snd of_result input_error].
  eexists. split; [reflexivity|]. split; [|split].
  - rewrite find_setitem_same. unfold phone_values. cbn [phones ContactRecord.name set_phones].
    rewrite map_app. cbn [map Phone.value]. rewrite HA, HB. reflexivity.
  - intros other Hne. apply find_setitem_other, Hne.
  - unfold keys. apply keys_setitem. apply in_map_iff.
    exists (name, record). split; [reflexivity | apply get_In, H].
Qed.

Lemma change_contact_then_show_phone_witness :
  exists book',
    change_contact [lit "Bob"; lit "0501234567"; lit "0671234567"]
      (snd (add_contact [lit "Bob"; lit "0501234567"] AddressBook.empty))
      = (lit "Contact updated successfully.", book') /\
    show_phone [lit "Bob"] book'
      = (lit "Bob" ++ lit "'s phones: " ++ join (lit "; ") ([] ++ lit "0671234567" :: []),
         book') /\
    (forall other, other <> lit "Bob" ->
       find other book'
       = find other (snd (add_contact [lit "Bob"; lit "0501234567"] AddressBook.empty))) /\
    keys book' = keys (snd (add_contact [lit "Bob"; lit "0501234567"] AddressBook.empty)).
Proof.
  apply (change_contact_then_show_phone (lit "Bob") (lit "0501234567") (lit "0671234567")
           (snd (add_contact [lit "Bob"; lit "0501234567"] AddressBook.empty))
           (ContactRecord.mk (Name.init (lit "Bob")) [Phone.mk (lit "0501234567")] None)
           [] []).
  - vm_compute; reflexivity.
  - reflexivity.
  - intros [].
  - vm_compute; reflexivity.
Defined.

(** A text of the form DD.MM.YYYY that is read as a date is the text the
    date is written as, from the year 1000 on or where the platform
    writes the year with four digits. *)
Lemma strftime_of_strict (platform : libc) (s : pystr) (b : Birthday.t) :
  strict_form s = true ->
  Birthday.init s = Ok b ->
  platform = PadsYear \/ 1000 <= year (Birthday.value b) ->
  strftime platform (Birthday.value b) = s.
Proof.
  intros F H P.
  destruct s as [|d1 [|d2 [|p1 [|m1 [|m2 [|p2 [|y1 [|y2 [|y3 [|y4 [|x s]]]]]]]]]]];
    try discriminate.
  unfold strict_form in F. rewrite !andb_true_iff, !Z.eqb_eq in F.
  destruct F as [[F ->] ->]. cbn [forallb] in F. rewrite !andb_true_iff in F.
  destruct F as (A1 & A2 & A3 & A4 & A5 & A6 & A7 & A8 & _).
  apply Birthday_init_Ok in H as (d & m & y & E & Fd & Fm & Fy & V & ->).
  change ([d1; d2] ++ DOT :: ([m1; m2] ++ DOT :: [y1; y2; y3; y4])
          = d ++ DOT :: m ++ DOT :: y) in E.
  assert (B : forall c, ascii_digit c = true -> c <> DOT)
    by (intros c Hc; apply ascii_digit_iff in Hc; unfold DOT; lia).
  apply dot_split_unique in E as [<- E];
    [| intros [X | [X | []]]; [exact (B _ A1 X) | exact (B _ A2 X)]
     | apply day_field_no_dot, Fd].
  apply dot_split_unique in E as [<- <-];
    [| intros [X | [X | []]]; [exact (B _ A3 X) | exact (B _ A4 X)]
     | apply month_field_no_dot, Fm].
  unfold strftime. cbn [Birthday.value year month day] in *.
  rewrite year_digits_four by exact P.
  unfold field_value.
  rewrite !field_value_ascii
    by (cbn [forallb]; rewrite ?A1, ?A2, ?A3, ?A4, ?A5, ?A6, ?A7, ?A8; reflexivity).
  cbn [fold_left].
  apply ascii_digit_iff in A1, A2, A3, A4, A5, A6, A7, A8.
  rewrite two_digits_inv, two_digits_inv, four_digits_inv by assumption.
  reflexivity.
Qed.

(** X18: [add-birthday] for a contact of the book.  A text that is not
    read as a date is answered with the date format message and the
    birthday the contact had stays; a text that is read as a date is
    stored, and [show-birthday] then answers with the date written as
    [strftime] writes it, which is the text that was given when that
    was two digits, a dot, two digits, a dot and four digits, the
    digits being [0-9] (from the year 1000 on, or where the platform
    writes the year with four digits). *)
Theorem add_birthday_then_show_birthday (platform : libc) (name text : pystr)
    (book : AddressBook.t) (record : ContactRecord.t) :
  find name book = Some record ->
  (forall e, Birthday.init text = Raise e ->
     Handlers.add_birthday [name; text] book = (DATE_FORMAT, book)) /\
  (forall b, Birthday.init text = Ok b ->
     exists book',
       Handlers.add_birthday [name; text] book
         = (lit "Birthday " ++ text ++ lit " added for contact " ++ name ++ lit ".", book') /\
       show_birthday platform [name] book'
         = (name ++ lit "'s birthday: " ++ Birthday.str platform b, book') /\
       (strict_form text = true ->
        platform = PadsYear \/ 1000 <= year (Birthday.value b) ->
        show_birthday platform [name] book'
          = (name ++ lit "'s birthday: " ++ text, book'))).
Proof.
  intros H.
  unfold Handlers.add_birthday, show_birthday, decorated,
    add_birthday_body, show_birthday_body.
  rewrite H. unfold on_record, ContactRecord.add_birthday. split.
  - intros e E. rewrite E. apply Birthday_init_Raise in E. subst e.
    cbn [of_result]. rewrite setitem_same by exact H. reflexivity.
  - intros b E. rewrite E. cbn [of_result input_error].
    eexists. split; [reflexivity|].
    rewrite find_setitem_same. cbn [ContactRecord.birthday].
    split; [reflexivity|].
    intros F P. unfold Birthday.str.
    rewrite (strftime_of_strict platform text b F E P). reflexivity.
Qed.

Lemma add_birthday_then_show_birthday_witness :
  exists book',
    Handlers.add_birthday [lit "Bob"; lit "15.06.1990"]
      (snd (add_contact [lit "Bob"; lit "0501234567"] AddressBook.empty))
      = (lit "Birthday " ++ lit "15.06.1990" ++ lit " added for contact "
         ++ lit "Bob" ++ lit ".", book') /\
    show_birthday PlainYear [lit "Bob"] book'
      = (lit "Bob" ++ lit "'s birthday: "
         ++ Birthday.str PlainYear (Birthday.mk (mkdate 1990 6 15)), book') /\
    (strict_form (lit "15.06.1990") = true ->
     PlainYear = PadsYear \/ 1000 <= year (Birthday.value (Birthday.mk (mkdate 1990 6 15))) ->
     show_birthday PlainYear [lit "Bob"] book'
       = (lit "Bob" ++ lit "'s birthday: " ++ lit "15.06.1990", book')).
Proof.
  apply (proj2 (add_birthday_then_show_birthday PlainYear (lit "Bob") (lit "15.06.1990")
                  (snd (add_contact [lit "Bob"; lit "0501234567"] AddressBook.empty))
                  (ContactRecord.mk (Name.init (lit "Bob")) [Phone.mk (lit "0501234567")] None)
                  ltac:(vm_compute; reflexivity))).
  vm_compute; reflexivity.
Defined.

(** ** The [birthdays] command *)

Lemma replace_year_raises (b : date) (y : Z) (e : exn) :
  valid b -> 1 <= y <= 10000 ->
  replace_year b y = Raise e -> e = DAY_OUT_OF_RANGE \/ e = YEAR_10000.
Proof.
  intros (_ & Hm & _) Hy. unfold replace_year, new.
  destruct (Z.eq_dec y 10000) as [-> | Hne].
  - vm_compute. intros E; injection E as <-. right; reflexivity.
  - replace ((MINYEAR <=? y) && (y <=? MAXYEAR)) with true
      by (symmetry; apply andb_true_iff; unfold MINYEAR, MAXYEAR;
          rewrite !Z.leb_le; lia).
    replace ((1 <=? month b) && (month b <=? 12)) with true
      by (symmetry; apply andb_true_iff; rewrite !Z.leb_le; lia).
    cbn [negb]. destruct (negb _); [|discriminate].
    intros E; injection E as <-. left; reflexivity.
Qed.

Lemma visit_raises (today : date) (r : ContactRecord.t)
    (d : list (pystr * list pystr)) (e : exn) :
  valid today ->
  (forall b, ContactRecord.birthday r = Some b -> valid (Birthday.value b)) ->
  visit today r d = Raise e -> e = DAY_OUT_OF_RANGE \/ e = YEAR_10000.
Proof.
  intros Vt Vb. unfold visit.
  destruct (ContactRecord.birthday r) as [b|]; [|discriminate].
  specialize (Vb b eq_refl). destruct Vt as (Hy & _). unfold MINYEAR, MAXYEAR in Hy.
  destruct (next_occurrence today (Birthday.value b)) as [[occ delta]|e'] eqn:N; simpl.
  - destruct ((0 <=? delta) && (delta <=? 7)); [|discriminate].
    destruct (shift_weekend_total occ (next_occurrence_valid _ _ _ _ N)) as [s ->].
    discriminate.
  - intros E; injection E as <-. unfold next_occurrence in N.
    destruct (replace_year (Birthday.value b) (year today)) as [ty|e1] eqn:R1; simpl in N.
    + destruct (sub_days ty today <? 0); [|discriminate].
      destruct (replace_year ty (year today + 1)) as [ny|e2] eqn:R2; simpl in N;
        [discriminate|].
      injection N as <-.
      apply replace_year_Ok in R1 as [_ Vty].
      apply (replace_year_raises ty (year today + 1) e2 Vty); [lia | exact R2].
    + injection N as <-.
      apply (replace_year_raises (Birthday.value b) (year today) e1 Vb); [lia | exact R1].
Qed.

Lemma collect_raises_kind (today : date) (rs : list ContactRecord.t) (e : exn) :
  valid today ->
  (forall r b, In r rs -> ContactRecord.birthday r = Some b -> valid (Birthday.value b)) ->
  forall d, collect today rs d = Raise e -> e = DAY_OUT_OF_RANGE \/ e = YEAR_10000.
Proof.
  intros Vt. induction rs as [|r rs IH]; intros Vb d; simpl; [discriminate|].
  destruct (visit today r d) as [d1|e1] eqn:V; simpl.
  - apply IH. intros r' b Hr. apply Vb. right; exact Hr.
  - intros E; injection E as <-.
    apply (visit_raises today r d e1 Vt); [|exact V].
    intros b. apply Vb. left; reflexivity.
Qed.

(** X19: the [birthdays] command never shows an exception of the query.
    When the query returns, the answer is its text; when it raises,
    which it does for a birthday on 29 February in a year that is not a
    leap year, the answer is the request for name and phone or
    birthday.  The book stays as it was. *)
Theorem show_upcoming_birthdays_answers (today : date) (args : list pystr)
    (book : AddressBook.t) :
  valid today ->
  (forall r b, In r (values book) -> ContactRecord.birthday r = Some b ->
     valid (Birthday.value b)) ->
  (forall out, get_upcoming_birthdays today book = Ok out ->
     show_upcoming_birthdays today args book = (out, book)) /\
  (forall e, get_upcoming_birthdays today book = Raise e ->
     show_upcoming_birthdays today args book = (GIVE_ME, book)) /\
  (is_leap (year today) = false ->
   (exists r b, In r (values book) /\ ContactRecord.birthday r = Some b /\
      month (Birthday.value b) = 2 /\ day (Birthday.value b) = 29) ->
   show_upcoming_birthdays today args book = (GIVE_ME, book)).
Proof.
  intros Vt Vb.
  assert (R : forall e, get_upcoming_birthdays today book = Raise e ->
              show_upcoming_birthdays today args book = (GIVE_ME, book)).
  { intros e E.
    unfold show_upcoming_birthdays, decorated, show_upcoming_birthdays_body.
    rewrite E. unfold get_upcoming_birthdays in E.
    destruct (collect today (values book) []) as [d|e'] eqn:C; [discriminate|].
    simpl in E. injection E as <-.
    destruct (collect_raises_kind today (values book) e' Vt Vb [] C) as [-> | ->];
      reflexivity. }
  split; [|split; [exact R|]].
  - intros out E.
    unfold show_upcoming_birthdays, decorated, show_upcoming_birthdays_body.
    rewrite E. reflexivity.
  - intros L (r & b & Hr & Hb & Hm & Hd).
    assert (X : exists e, get_upcoming_birthdays today book = Raise e).
    { unfold get_upcoming_birthdays.
      destruct (collect_raises today r (values book) Hr) with (d := @nil (pystr * list pystr))
        as [e ->]; [|simpl; eauto].
      intros d. unfold visit, next_occurrence, replace_year, new.
      rewrite Hb, Hm, Hd.
      destruct (negb ((MINYEAR <=? year today) && (year today <=? MAXYEAR)));
        [simpl; eauto|].
      unfold days_in_month. rewrite L. simpl. eauto. }
    destruct X as [e E]. exact (R e E).
Qed.

Lemma show_upcoming_birthdays_answers_witness :
  show_upcoming_birthdays saturday_2023_06_10 []
    (book_of (lit "Leap") (lit "29.02.2000"))
  = (GIVE_ME, book_of (lit "Leap") (lit "29.02.2000")).
Proof.
  apply (proj2 (proj2 (show_upcoming_birthdays_answers saturday_2023_06_10 []
                         (book_of (lit "Leap") (lit "29.02.2000"))
                         ltac:(vm_compute; repeat split; discriminate)
                         ltac:(intros r b [<- | []] Hb; vm_compute in Hb;
                               injection Hb as <-; vm_compute;
                               repeat split; discriminate)))).
  - reflexivity.
  - exists (contact (lit "Leap") (lit "29.02.2000")), (Birthday.mk (mkdate 2000 2 29)).
    split; [left; reflexivity|]. split; [vm_compute; reflexivity|]. split; reflexivity.
Defined.

(** ** What the commands keep *)

Lemma show_handlers_snd (platform : libc) (today : date)
    (args : list pystr) (book : AddressBook.t) :
  snd (show_phone args book) = book /\
  snd (show_all platform args book) = book /\
  snd (show_birthday platform args book) = book /\
  snd (show_upcoming_birthdays today args book) = book.
Proof.
  unfold show_phone, show_all, show_birthday, show_upcoming_birthdays, decorated,
    show_phone_body, show_all_body, show_birthday_body, show_upcoming_birthdays_body.
  repeat split.
  - destruct args as [|name args]; [reflexivity|].
    destruct (find name book); reflexivity.
  - destruct book; reflexivity.
  - destruct args as [|name args]; [reflexivity|].
    destruct (find name book) as [r|]; [|reflexivity].
    destruct (ContactRecord.birthday r); reflexivity.
  - destruct (get_upcoming_birthdays today book); reflexivity.
Qed.

Lemma sound_book_setitem (name : pystr) (r : ContactRecord.t) (book : AddressBook.t) :
  sound_book book ->
  record_name r = name ->
  valid_phones r ->
  (forall b, ContactRecord.birthday r = Some b -> valid (Birthday.value b)) ->
  sound_book (setitem name r book).
Proof.
  intros [[N K] S] Hn Hv Hb. split; [split|].
  - unfold keys in *.
    destruct (in_dec (list_eq_dec Z.eq_dec) name (map fst book)) as [H | H].
    + rewrite (proj1 (keys_setitem name r book) H). exact N.
    + rewrite (proj2 (keys_setitem name r book) H).
      apply NoDup_app; [exact N | repeat constructor; simpl; tauto |].
      intros x Hx [<- | []]. exact (H Hx).
  - intros k r' H. apply In_setitem in H as [[-> ->] | H]; [exact Hn | exact (K k r' H)].
  - intros k r' H. apply In_setitem in H as [[-> ->] | H]; [auto | exact (S k r' H)].
Qed.

Lemma sound_book_find (name : pystr) (r : ContactRecord.t) (book : AddressBook.t) :
  sound_book book -> find name book = Some r ->
  record_name r = name /\ valid_phones r /\
  forall b, ContactRecord.birthday r = Some b -> valid (Birthday.value b).
Proof.
  intros [[N K] S] H. apply get_In in H.
  split; [exact (K name r H) | exact (S name r H)].
Qed.

Lemma add_contact_sound (args : list pystr) (book : AddressBook.t) :
  sound_book book -> sound_book (snd (add_contact args book)).
Proof.
  intros G. unfold add_contact, decorated, add_contact_body.
  destruct args as [|name [|phone rest]]; [exact G | exact G |].
  destruct (find name book) as [record|] eqn:F; cbv zeta; unfold on_record.
  - destruct (sound_book_find name record book G F) as (Hn & Hv & Hb).
    destruct (add_phone_values phone record) as (Hn' & Hb' & _).
    pose proof (apply_phone_op_valid record (AddPhone phone) Hv) as Hv'.
    simpl in Hv'.
    destruct (add_phone phone record) as [r record']. cbn [fst snd] in *.
    apply sound_book_setitem; [exact G | | exact Hv' |].
    + unfold record_name in *. rewrite Hn'. exact Hn.
    + rewrite Hb'. exact Hb.
  - destruct (add_phone_values phone (ContactRecord.init name)) as (Hn' & Hb' & _).
    pose proof (apply_phone_op_valid (ContactRecord.init name) (AddPhone phone)
                  ltac:(constructor)) as Hv'.
    simpl in Hv'.
    destruct (add_phone phone (ContactRecord.init name)) as [r record'].
    cbn [fst snd] in *.
    apply sound_book_setitem.
    + unfold add_record. apply sound_book_setitem; [exact G | reflexivity | constructor |].
      intros b Hb. discriminate.
    + unfold record_name. rewrite Hn'. reflexivity.
    + exact Hv'.
    + rewrite Hb'. intros b Hb. discriminate.
Qed.

Lemma change_contact_sound (args : list pystr) (book : AddressBook.t) :
  sound_book book -> sound_book (snd (change_contact args book)).
Proof.
  intros G. unfold change_contact, decorated, change_contact_body.
  destruct args as [|name [|old [|new [|x rest]]]]; try exact G.
  destruct (find name book) as [record|] eqn:F; [|exact G]. unfold on_record.
  destruct (sound_book_find name record book G F) as (Hn & Hv & Hb).
  destruct (edit_phone_values old new record) as (Hn' & Hb' & _).
  pose proof (apply_phone_op_valid record (EditPhone old new) Hv) as Hv'.
  simpl in Hv'.
  destruct (edit_phone old new record) as [r record']. cbn [fst snd] in *.
  apply sound_book_setitem; [exact G | | exact Hv' |].
  - unfold record_name in *. rewrite Hn'. exact Hn.
  - rewrite Hb'. exact Hb.
Qed.

Lemma add_birthday_sound (args : list pystr) (book : AddressBook.t) :
  sound_book book -> sound_book (snd (Handlers.add_birthday args book)).
Proof.
  intros G. unfold Handlers.add_birthday, decorated, add_birthday_body.
  destruct args as [|name [|text [|x rest]]]; try exact G.
  destruct (find name book) as [record|] eqn:F; [|exact G]. unfold on_record.
  destruct (sound_book_find name record book G F) as (Hn & Hv & Hb).
  unfold ContactRecord.add_birthday.
  destruct (Birthday.init text) as [b|e] eqn:E; cbn [fst snd].
  - apply sound_book_setitem; [exact G | exact Hn | exact Hv |].
    intros b' Hb'. injection Hb' as <-. apply (Birthday_init_shape text b E).
  - apply sound_book_setitem; assumption.
Qed.

(** X21: whatever commands are given, with whatever arguments, to a book
    that starts empty, every contact is stored once and under its own
    name, each of its phones is ten decimal digits, and its birthday, if
    it has one, is a date of the calendar. *)
Theorem commands_keep_book_sound (platform : libc) (today : date) (cs : list command) :
  sound_book (run_commands platform today cs AddressBook.empty) /\
  forall name record,
    find name (run_commands platform today cs AddressBook.empty) = Some record ->
    record_name record = name /\ valid_phones record /\
    forall b, ContactRecord.birthday record = Some b -> valid (Birthday.value b).
Proof.
  assert (G : forall book, sound_book book ->
                sound_book (run_commands platform today cs book)).
  { unfold run_commands. induction cs as [|c cs IH]; intros book S; simpl; [exact S|].
    apply IH. destruct c as [args | args | args | args | args | args | args]; simpl.
    - apply add_contact_sound, S.
    - apply change_contact_sound, S.
    - rewrite (proj1 (show_handlers_snd platform today args book)). exact S.
    - rewrite (proj1 (proj2 (show_handlers_snd platform today args book))).
      exact S.
    - apply add_birthday_sound, S.
    - rewrite (proj1 (proj2 (proj2 (show_handlers_snd platform today args book)))).
      exact S.
    - rewrite (proj2 (proj2 (proj2 (show_handlers_snd platform today args book)))).
      exact S. }
  assert (S : sound_book (run_commands platform today cs AddressBook.empty)).
  { apply G. split; [split; [constructor | intros k r []] | intros k r []]. }
  split; [exact S|]. intros name record H. apply (sound_book_find name record _ S H).
Qed.
